(** * Gesture-to-MIDI translation pipeline of the virtual-key controller

    A shallow embedding of
      - [src/midi/mpe_engine.py]  (class [MPEEngine]),
      - [src/utils/filters.py]    (class [OneEuroFilter]),
      - [src/core/spatial.py]     (class [SpatialEngine]),
      - [src/main.py]             (class [OpticalController], the MIDI logic),
    together with the properties of the specification that concern them.

    Conventions of the embedding.
      - Python [int] is [Z]; [&], [|] and [>>] are [Z.land], [Z.lor] and
        [Z.shiftr] (Python integers are unbounded two's complement, as [Z]).
      - Python [float] is an exact rational [Q]: rounding, infinities and NaN
        are not modelled.  A division whose divisor is zero raises
        [ZeroDivisionError], as in Python; it is written out at every [/].
      - A Python dictionary is a [gmap]; a Python list is a [list].
      - A method that mutates [self] returns the new object; a method that
        sends MIDI messages also returns the list of messages sent, in
        order; a method that can raise returns a [result]. *)

From Stdlib Require Import ZArith QArith Qround Qminmax Qabs Lia Lqa.
From stdpp Require Import gmap list.

Local Open Scope Z_scope.

(** ** Exceptions *)

Inductive exn : Type :=
  | ZeroDivisionError
  | ValueError
  | KeyError
  | IndexError.

Inductive result (A : Type) : Type :=
  | Ok (a : A)
  | Raise (e : exn).
Arguments Ok {A} a.
Arguments Raise {A} e.

#[global] Instance result_ret : MRet result := λ A a, Ok a.
#[global] Instance result_bind : MBind result := λ A B k r,
  match r with
  | Ok a => k a
  | Raise e => Raise e
  end.

(** [int(x)] on a float: truncation toward zero. *)
Definition py_int (q : Q) : Z := Z.quot (Qnum q) (Zpos (Qden q)).

(** [range(a, b)] *)
Definition py_range (a b : Z) : list Z := seqZ a (b - a).

(** ** The MPE engine: [src/midi/mpe_engine.py] *)

Module MPE.

(** Status nibbles of [rtmidi.midiconstants]. *)
Definition NOTE_OFF : Z := 0x80.
Definition NOTE_ON : Z := 0x90.
Definition CONTROL_CHANGE : Z := 0xB0.
Definition PITCH_BEND : Z := 0xE0.

Definition CC_TIMBRE : Z := 74.
Definition CC_ALL_NOTES_OFF : Z := 123.

(** A message handed to [_send]: the list of its bytes. *)
Definition message : Type := list Z.

Section engine.
(** [finger_id] is "any hashable key". *)
Context `{Countable K}.

Record MPEEngine : Type := mkEngine {
  (** finger_key → (channel_index, note_number) *)
  active_notes : gmap K (Z * Z);
  (** free note-channels, in allocation order *)
  available_channels : list Z
}.

(** [__init__] (the MIDI port is the transport collaborator). *)
Definition init : MPEEngine :=
  {| active_notes := ∅; available_channels := py_range 1 16 |}.

Definition note_on (e : MPEEngine) (finger_id : K) (note_num velocity : Z)
  : MPEEngine * list message :=
  match available_channels e with
  | [] => (e, [])
  | chan :: rest =>
      let e' := {| active_notes := <[finger_id := (chan, note_num)]> (active_notes e);
                   available_channels := rest |} in
      let pb_centre_lsb := 0x00 in
      let pb_centre_msb := 0x40 in
      let velocity := Z.max 1 (Z.min 127 velocity) in
      (e', [ [Z.lor PITCH_BEND chan; pb_centre_lsb; pb_centre_msb];
             [Z.lor NOTE_ON chan; Z.land note_num 0x7F; velocity] ])
  end.

Definition update_expression (e : MPEEngine) (finger_id : K)
    (pitch_bend : Z) (y_val : Q) : MPEEngine * list message :=
  match active_notes e !! finger_id with
  | None => (e, [])
  | Some (chan, _) =>
      let pb := Z.max 0 (Z.min 16383 pitch_bend) in
      let pb_lsb := Z.land pb 0x7F in
      let pb_msb := Z.land (Z.shiftr pb 7) 0x7F in
      let cc_val := Z.max 0 (Z.min 127 (py_int (y_val * 127)%Q)) in
      (e, [ [Z.lor PITCH_BEND chan; pb_lsb; pb_msb];
            [Z.lor CONTROL_CHANGE chan; CC_TIMBRE; cc_val] ])
  end.

Definition note_off (e : MPEEngine) (finger_id : K) (note_num : option Z)
  : MPEEngine * list message :=
  match active_notes e !! finger_id with
  | None => (e, [])
  | Some (chan, stored_note) =>
      let actual_note := match note_num with
                         | None => stored_note
                         | Some n => n
                         end in
      ({| active_notes := delete finger_id (active_notes e);
          available_channels := available_channels e ++ [chan] |},
       [ [Z.lor NOTE_OFF chan; Z.land actual_note 0x7F; 0];
         [Z.lor PITCH_BEND chan; 0x00; 0x40] ])
  end.

Definition all_notes_off (e : MPEEngine) : MPEEngine * list message :=
  ({| active_notes := ∅; available_channels := py_range 1 16 |},
   (λ channel, [Z.lor CONTROL_CHANGE channel; CC_ALL_NOTES_OFF; 0])
     <$> py_range 0 16).

(** *** Sequences of calls *)

Inductive call : Type :=
  | NoteOn (finger_id : K) (note_num velocity : Z)
  | UpdateExpression (finger_id : K) (pitch_bend : Z) (y_val : Q)
  | NoteOff (finger_id : K) (note_num : option Z)
  | AllNotesOff.

Definition step (e : MPEEngine) (c : call) : MPEEngine * list message :=
  match c with
  | NoteOn f n v => note_on e f n v
  | UpdateExpression f pb y => update_expression e f pb y
  | NoteOff f n => note_off e f n
  | AllNotesOff => all_notes_off e
  end.

(** The engine after a sequence of calls, and every message sent. *)
Fixpoint run (e : MPEEngine) (cs : list call) : MPEEngine * list message :=
  match cs with
  | [] => (e, [])
  | c :: cs' =>
      let '(e1, out1) := step e c in
      let '(e2, out2) := run e1 cs' in
      (e2, out1 ++ out2)
  end.

(** *** The channel pool *)

(** Channels held by the active associations, one entry per finger. *)
Definition in_use (e : MPEEngine) : list Z :=
  (map_to_list (active_notes e)).*2.*1.

Definition note_channels : list Z := py_range 1 16.

(** In-use channels and free pool are disjoint and cover the 15
    note-channels. *)
Definition partitions (e : MPEEngine) : Prop :=
  (∀ c, c ∈ in_use e → c ∉ available_channels e) ∧
  (∀ c, c ∈ in_use e ∨ c ∈ available_channels e ↔ c ∈ note_channels).

(** The same with multiplicities: no channel is held twice either. *)
Definition exact_partition (e : MPEEngine) : Prop :=
  in_use e ++ available_channels e ≡ₚ note_channels.

End engine.

Arguments MPEEngine K {_ _}.
Arguments call K : clear implicits.

End MPE.

(** ** The One-Euro filter: [src/utils/filters.py] *)

Module Filter.

Local Open Scope Q_scope.

(** [math.pi]: the double nearest to π, which is this rational. *)
Definition math_pi : Q := 884279719003555 # 281474976710656.

(** [a / b] on floats. *)
Definition py_div (a b : Q) : result Q :=
  if Qeq_bool b 0 then Raise ZeroDivisionError else Ok (a / b).

Record OneEuroFilter : Type := mkFilter {
  freq : Q;
  min_cutoff : Q;
  beta : Q;
  d_cutoff : Q;
  _x_prev : option Q;
  _dx_prev : Q;
  _t_prev : option Q
}.

(** [__init__] *)
Definition new (freq min_cutoff beta d_cutoff : Q) : OneEuroFilter :=
  {| freq := freq; min_cutoff := min_cutoff; beta := beta; d_cutoff := d_cutoff;
     _x_prev := None; _dx_prev := 0; _t_prev := None |}.

Definition _alpha (t_e cutoff : Q) : result Q :=
  let r := 2 * math_pi * cutoff * t_e in
  py_div r (r + 1).

(** The local variables of one [__call__]. *)
Record locals : Type := mkLocals {
  t_e : Q;
  a_d : Q;
  dx : Q;
  dx_hat : Q;
  cutoff : Q;
  a : Q;
  x_hat : Q
}.

(** The body of [__call__], keeping its local variables.  An exception
    leaves [run]'s loop, so the filter after a raise is not modelled. *)
Definition call_locals (f : OneEuroFilter) (x t : Q)
  : result (locals * OneEuroFilter) :=
  t_e ← match _t_prev f with
        | Some t_prev => Ok (t - t_prev)
        | None => py_div 1 (freq f)
        end;
  a_d ← _alpha t_e (d_cutoff f);
  dx ← match _x_prev f with
       | Some x_prev => py_div (x - x_prev) t_e
       | None => Ok 0
       end;
  let dx_hat := a_d * dx + (1 - a_d) * _dx_prev f in
  let cutoff := min_cutoff f + beta f * Qabs dx_hat in
  a ← _alpha t_e cutoff;
  let x_hat := match _x_prev f with
               | Some x_prev => a * x + (1 - a) * x_prev
               | None => x
               end in
  Ok (mkLocals t_e a_d dx dx_hat cutoff a x_hat,
      {| freq := freq f; min_cutoff := min_cutoff f; beta := beta f;
         d_cutoff := d_cutoff f;
         _x_prev := Some x_hat; _dx_prev := dx_hat; _t_prev := Some t |}).

(** [__call__]: the filtered value and the filter after the call. *)
Definition call (f : OneEuroFilter) (x t : Q) : result (Q * OneEuroFilter) :=
  '(l, f') ← call_locals f x t;
  Ok (x_hat l, f').

Definition reset (f : OneEuroFilter) : OneEuroFilter :=
  {| freq := freq f; min_cutoff := min_cutoff f; beta := beta f;
     d_cutoff := d_cutoff f;
     _x_prev := None; _dx_prev := 0; _t_prev := None |}.

(** Feeding the samples [(x, t)] in order: the locals of every call. *)
Fixpoint feed (f : OneEuroFilter) (samples : list (Q * Q))
  : result (list locals * OneEuroFilter) :=
  match samples with
  | [] => Ok ([], f)
  | (x, t) :: rest =>
      '(l, f1) ← call_locals f x t;
      '(ls, f2) ← feed f1 rest;
      Ok (l :: ls, f2)
  end.

End Filter.

(** ** The perspective mapper: [src/core/spatial.py] *)

Module Spatial.

Local Open Scope Q_scope.

(** A 3×3 homography, row by row. *)
Record matrix : Type := mkMatrix {
  h00 : Q; h01 : Q; h02 : Q;
  h10 : Q; h11 : Q; h12 : Q;
  h20 : Q; h21 : Q; h22 : Q
}.

(** [cv2.perspectiveTransform] on one point, as OpenCV documents it:
    [(x, y) ↦ (x'/w, y'/w)] with [(x', y', w) = M·(x, y, 1)], and the
    zero point when [w = 0]. *)
Definition perspectiveTransform (m : matrix) (x y : Q) : Q * Q :=
  let w := h20 m * x + h21 m * y + h22 m in
  if Qeq_bool w 0 then (0, 0)
  else ((h00 m * x + h01 m * y + h02 m) / w,
        (h10 m * x + h11 m * y + h12 m) / w).

Record SpatialEngine : Type := mkSpatial {
  homography_matrix : option matrix
}.

Definition init : SpatialEngine := {| homography_matrix := None |}.

Definition dst_norm : list (Q * Q) := [(0, 0); (1, 0); (1, 1); (0, 1)].

(** [[x / frame_w, y / frame_h] for x, y in src_points] *)
Fixpoint normalise (src_points : list (Z * Z)) (frame_w frame_h : Z)
  : result (list (Q * Q)) :=
  match src_points with
  | [] => Ok []
  | (x, y) :: rest =>
      nx ← Filter.py_div (inject_Z x) (inject_Z frame_w);
      ny ← Filter.py_div (inject_Z y) (inject_Z frame_h);
      ps ← normalise rest frame_w frame_h;
      Ok ((nx, ny) :: ps)
  end.

Section calibration.
(** [cv2.findHomography(src, dst)[0]]: the matrix, or [None] when OpenCV
    cannot estimate one.  The solver is a collaborator: nothing is
    assumed about which inputs it rejects. *)
Variable findHomography : list (Q * Q) → list (Q * Q) → option matrix.

(** The engine after the call and how the call ended.  The only
    assignment to [self] is the last statement. *)
Definition calibrate (s : SpatialEngine) (src_points : list (Z * Z))
    (frame_w frame_h : Z) : SpatialEngine * result () :=
  if bool_decide (length src_points ≠ 4%nat) then (s, Raise ValueError)
  else
    match normalise src_points frame_w frame_h with
    | Raise e => (s, Raise e)
    | Ok src_norm =>
        ({| homography_matrix := findHomography src_norm dst_norm |}, Ok ())
    end.
End calibration.

Definition reset (s : SpatialEngine) : SpatialEngine :=
  {| homography_matrix := None |}.

Definition project_point (s : SpatialEngine) (x y : Q) : Q * Q :=
  match homography_matrix s with
  | None => (x, y)
  | Some m =>
      let '(px, py) := perspectiveTransform m x y in
      (Qmax 0 (Qmin 1 px), Qmax 0 (Qmin 1 py))
  end.

End Spatial.

(** ** The gesture translator: the MIDI logic of [src/main.py] *)

Module Controller.

Import MPE Filter Spatial.
Local Open Scope Q_scope.

(** A finger key [(hand_idx, tip_id)]. *)
Abbreviation finger := (Z * Z)%type.

(** The values of [FINGER_TIPS], in the dictionary's order. *)
Definition FINGER_TIPS : list Z := [8; 12; 16; 20]%Z.

Definition KEY_ZONE_TOP : Q := 0.76.
Definition KEY_ZONE_RELEASE : Q := 0.73.

(** A landmark of the detector; its depth is not read. *)
Record Landmark : Type := mkLandmark { lm_x : Q; lm_y : Q }.

Record OpticalController : Type := mkController {
  note_start : Z;
  note_end : Z;
  num_notes : Z;
  spatial : SpatialEngine;
  mpe : MPEEngine finger;
  filters_x : gmap finger OneEuroFilter;
  filters_y : gmap finger OneEuroFilter;
  active_fingers : gmap finger Z
}.

(** The filters built by [__init__]: one per hand slot and fingertip. *)
Definition make_filters (freq beta : Q) : gmap finger OneEuroFilter :=
  list_to_map
    (hi ← py_range 0 2; tip_id ← FINGER_TIPS;
     [((hi, tip_id), Filter.new freq 1 beta 1)]).

(** [__init__]; the four values come from the configuration file. *)
Definition new (note_start note_end : Z) (beta freq : Q) : OpticalController :=
  {| note_start := note_start;
     note_end := note_end;
     num_notes := note_end - note_start;
     spatial := Spatial.init;
     mpe := MPE.init;
     filters_x := make_filters freq beta;
     filters_y := make_filters freq beta;
     active_fingers := ∅ |}.

Definition _note_from_x (c : OpticalController) (x : Q) : Z :=
  (note_start c + py_int (Qmax 0 (Qmin 0.9999 x) * inject_Z (num_notes c)))%Z.

Definition with_mpe (c : OpticalController) (e : MPEEngine finger)
    (fingers : gmap finger Z) : OpticalController :=
  {| note_start := note_start c; note_end := note_end c;
     num_notes := num_notes c; spatial := spatial c;
     mpe := e;
     filters_x := filters_x c; filters_y := filters_y c;
     active_fingers := fingers |}.

(** The controller after [self.spatial] was mutated into [s]. *)
Definition with_spatial (c : OpticalController) (s : SpatialEngine)
  : OpticalController :=
  {| note_start := note_start c; note_end := note_end c;
     num_notes := num_notes c; spatial := s; mpe := mpe c;
     filters_x := filters_x c; filters_y := filters_y c;
     active_fingers := active_fingers c |}.

(** Lines 204-225 of [_process_hand]: the press/release decision of one
    fingertip from its filtered height [fy] and projected abscissa [px].
    Returns the controller, the notes added to [active] and the messages
    sent. *)
Definition tip_logic (c : OpticalController) (k : finger) (fy px : Q)
  : OpticalController * list Z * list message :=
  let pressing := Qle_bool KEY_ZONE_TOP fy in
  if pressing then
    let note := _note_from_x c px in
    match active_fingers c !! k with
    | None =>
        let '(e1, out1) := note_on (mpe c) k note 80 in
        (with_mpe c e1 (<[k := note]> (active_fingers c)), [note], out1)
    | Some old =>
        if bool_decide (old ≠ note) then
          let '(e1, out1) := note_off (mpe c) k (Some old) in
          let '(e2, out2) := note_on e1 k note 80 in
          (with_mpe c e2 (<[k := note]> (active_fingers c)), [note], out1 ++ out2)
        else (c, [note], [])
    end
  else
    match active_fingers c !! k with
    | Some old =>
        if negb (Qle_bool KEY_ZONE_RELEASE fy) then
          let '(e1, out1) := note_off (mpe c) k (Some old) in
          (with_mpe c e1 (delete k (active_fingers c)), [], out1)
        else (c, [], [])
    | None => (c, [], [])
    end.

(** The filtered and the projected position of a fingertip: lines 197-202. *)
Record tip_signal : Type := mkSignal { fx : Q; fy : Q; px : Q; py : Q }.

Definition tip_filter (c : OpticalController) (landmarks : list Landmark)
    (k : finger) (t : Q) : result (tip_signal * OpticalController) :=
  tip ← match landmarks !! Z.to_nat k.2 with
        | Some tip => Ok tip
        | None => Raise IndexError
        end;
  filt_x ← match filters_x c !! k with
           | Some f => Ok f
           | None => Raise KeyError
           end;
  '(fx, filt_x') ← Filter.call filt_x (lm_x tip) t;
  filt_y ← match filters_y c !! k with
           | Some f => Ok f
           | None => Raise KeyError
           end;
  '(fy, filt_y') ← Filter.call filt_y (lm_y tip) t;
  let '(px, py) := project_point (spatial c) fx fy in
  Ok (mkSignal fx fy px py,
      {| note_start := note_start c; note_end := note_end c;
         num_notes := num_notes c; spatial := spatial c; mpe := mpe c;
         filters_x := <[k := filt_x']> (filters_x c);
         filters_y := <[k := filt_y']> (filters_y c);
         active_fingers := active_fingers c |}).

(** One iteration of the loop of [_process_hand]. *)
Definition process_tip (c : OpticalController) (landmarks : list Landmark)
    (hand_idx : Z) (t : Q) (tip_id : Z)
  : result (OpticalController * list Z * list message) :=
  let k := (hand_idx, tip_id) in
  '(s, c1) ← tip_filter c landmarks k t;
  Ok (tip_logic c1 k (fy s) (px s)).

(** The loop over the fingertips [tips], threading the controller, the
    set [active] and the messages sent. *)
Fixpoint process_tips (c : OpticalController) (landmarks : list Landmark)
    (hand_idx : Z) (t : Q) (tips : list Z) (active : gset Z)
  : result (OpticalController * gset Z * list message) :=
  match tips with
  | [] => Ok (c, active, [])
  | tip_id :: rest =>
      '(c1, notes, out1) ← process_tip c landmarks hand_idx t tip_id;
      '(c2, active2, out2) ←
         process_tips c1 landmarks hand_idx t rest (list_to_set notes ∪ active);
      Ok (c2, active2, out1 ++ out2)
  end.

Definition _process_hand (c : OpticalController) (landmarks : list Landmark)
    (hand_idx : Z) (t : Q) : result (OpticalController * gset Z * list message) :=
  process_tips c landmarks hand_idx t FINGER_TIPS ∅.

(** The loop of [run] over the detected hands, lines 281-285:
    [for hi, landmarks in enumerate(result.hand_landmarks)], from hand
    index [hi] on. *)
Fixpoint process_hands (c : OpticalController) (hands : list (list Landmark))
    (hi : Z) (t : Q) (all_active : gset Z)
  : result (OpticalController * gset Z * list message) :=
  match hands with
  | [] => Ok (c, all_active, [])
  | landmarks :: rest =>
      '(c1, active, out1) ← _process_hand c landmarks hi t;
      '(c2, all_active2, out2) ←
         process_hands c1 rest (hi + 1)%Z t (all_active ∪ active);
      Ok (c2, all_active2, out1 ++ out2)
  end.

(** Lines 289-290 of [run]:
    [for fk in stale: self.mpe.note_off(fk, self.active_fingers.pop(fk))]. *)
Fixpoint release_stale (c : OpticalController) (stale : list finger)
  : result (OpticalController * list message) :=
  match stale with
  | [] => Ok (c, [])
  | fk :: rest =>
      old ← match active_fingers c !! fk with
            | Some note => Ok note
            | None => Raise KeyError
            end;
      let '(e1, out1) := note_off (mpe c) fk (Some old) in
      '(c2, out2) ←
         release_stale (with_mpe c e1 (delete fk (active_fingers c))) rest;
      Ok (c2, out1 ++ out2)
  end.

(** The attributes of the controller that the calibration dialogue reads
    and writes: the key [C] and the mouse callback. *)
Record CalibrationUI : Type := mkUI {
  calibrating : bool;
  calibration_points : list (Z * Z);
  ui_spatial : SpatialEngine;
  frame_w : Z;
  frame_h : Z
}.

(** The key [C] in [run], lines 299-301. *)
Definition start_calibration (u : CalibrationUI) : CalibrationUI :=
  {| calibrating := true; calibration_points := [];
     ui_spatial := ui_spatial u; frame_w := frame_w u; frame_h := frame_h u |}.

Section mouse.
Variable findHomography : list (Q * Q) → list (Q * Q) → option matrix.

(** [_on_mouse]; [left_button_down] is [event == cv2.EVENT_LBUTTONDOWN].
    Returns the attributes after the callback and how it ended. *)
Definition _on_mouse (u : CalibrationUI) (left_button_down : bool) (x y : Z)
  : CalibrationUI * result () :=
  if left_button_down && calibrating u then
    let points := calibration_points u ++ [(x, y)] in
    if bool_decide (length points = 4%nat) then
      let '(s, r) :=
        calibrate findHomography (ui_spatial u) points (frame_w u) (frame_h u) in
      match r with
      | Ok _ =>
          ({| calibrating := false; calibration_points := points;
              ui_spatial := s; frame_w := frame_w u; frame_h := frame_h u |},
           Ok ())
      | Raise e =>
          ({| calibrating := calibrating u; calibration_points := points;
              ui_spatial := s; frame_w := frame_w u; frame_h := frame_h u |},
           Raise e)
      end
    else
      ({| calibrating := calibrating u; calibration_points := points;
          ui_spatial := ui_spatial u; frame_w := frame_w u;
          frame_h := frame_h u |},
       Ok ())
  else (u, Ok ()).

(** Left clicks at the points [ps], in order. *)
Fixpoint clicks (u : CalibrationUI) (ps : list (Z * Z)) : CalibrationUI :=
  match ps with
  | [] => u
  | (x, y) :: rest => clicks (_on_mouse u true x y).1 rest
  end.
End mouse.

(** [_velocity_from_z_delta]; [press_z_thresh] is the attribute of the
    controller it reads. *)
Definition _velocity_from_z_delta (press_z_thresh z_delta : Q) : Z :=
  py_int (Qmin 127 (Qmax 1 ((z_delta - press_z_thresh) * 1200 + 60))).

End Controller.

(** ** Notions used by the properties *)

Module Props.

Import MPE.

(** A well-formed channel-voice message: three bytes, a status byte
    [message_type | channel_index] with a channel index in 0-15, and two
    data bytes in the 7-bit range. *)
Definition message_types : list Z :=
  [NOTE_OFF; NOTE_ON; CONTROL_CHANGE; PITCH_BEND].

Definition well_formed (m : message) : Prop :=
  ∃ ty ch d1 d2,
    m = [Z.lor ty ch; d1; d2] ∧ ty ∈ message_types ∧
    0 ≤ ch ≤ 15 ∧ 0 ≤ d1 ≤ 127 ∧ 0 ≤ d2 ≤ 127.

Section engine.
Context `{Countable K}.

(** Every channel the engine knows is a note-channel. *)
Definition channels_ok (e : MPEEngine K) : Prop :=
  Forall (λ c, 1 ≤ c ≤ 15) (available_channels e) ∧
  map_Forall (λ _ (v : Z * Z), 1 ≤ v.1 ≤ 15) (active_notes e).

(** [note_on] for each [(finger, note, velocity)] of a list, in order. *)
Definition presses (fs : list (K * Z * Z)) : list (call K) :=
  (λ '(f, n, v), NoteOn f n v) <$> fs.

(** A sequence of calls in which [note_on] is only issued for a finger
    without an active association. *)
Fixpoint disciplined (e : MPEEngine K) (cs : list (call K)) : Prop :=
  match cs with
  | [] => True
  | c :: cs' =>
      match c with
      | NoteOn f _ _ => active_notes e !! f = None
      | _ => True
      end ∧ disciplined (step e c).1 cs'
  end.
End engine.

(** [clamp(x, lo, hi)] of the note-index formula. *)
Definition clamp (x lo hi : Q) : Q :=
  if Qlt_le_dec x lo then lo else if Qlt_le_dec hi x then hi else x.

(** Twice the signed area of the triangle [p q r]. *)
Definition cross (p q r : Z * Z) : Z :=
  (q.1 - p.1) * (r.2 - p.2) - (q.2 - p.2) * (r.1 - p.1).

(** Degenerate calibration points: all on one line. *)
Definition degenerate (pts : list (Z * Z)) : Prop :=
  Forall (λ p, Forall (λ q, Forall (λ r, cross p q r = 0) pts) pts) pts.

End Props.

(** * Example inputs *)

Module Examples.

Import MPE Filter Spatial Controller.

(** Fifteen distinct fingers, each with a note and a velocity. *)
Definition fifteen_fingers : list (finger * Z * Z) :=
  (λ i, ((0, i), 60 + i, 80)) <$> py_range 1 16.

(** A filter as [__init__] of the controller builds them, at 30 Hz. *)
Definition fresh_filter : OneEuroFilter := Filter.new 30 1 0 1.

(** The homography of the lower half of the frame: [(x, y) ↦ (x, 2y - 1)]. *)
Definition lower_half : matrix :=
  {| h00 := 1; h01 := 0; h02 := 0;
     h10 := 0; h11 := 2; h12 := -1;
     h20 := 0; h21 := 0; h22 := 1 |}.

(** The corners of the lower half of a 640×480 frame, TL, TR, BR, BL. *)
Definition lower_half_clicks : list (Z * Z) :=
  [(0, 240); (640, 240); (640, 480); (0, 480)].

(** Four clicks on one horizontal line. *)
Definition collinear_clicks : list (Z * Z) :=
  [(0, 240); (200, 240); (400, 240); (600, 240)].

Fixpoint same_points (ps qs : list (Q * Q)) : bool :=
  match ps, qs with
  | [], [] => true
  | p :: ps', q :: qs' =>
      Qeq_bool p.1 q.1 && Qeq_bool p.2 q.2 && same_points ps' qs'
  | _, _ => false
  end.

(** A solver that estimates the homography of [lower_half_clicks] and
    finds none for any other input. *)
Definition solve_lower_half (src dst : list (Q * Q)) : option matrix :=
  if same_points src [(0, 0.5); (1, 0.5); (1, 1); (0, 1)]%Q
  then Some lower_half else None.

(** The controller of the default key range 60-84, at 30 Hz. *)
Definition fresh : OpticalController := Controller.new 60 84 0 30.

(** A hand of 21 landmarks whose index fingertip (landmark 8) is at
    [(x, y)] and all others at the centre of the frame. *)
Definition hand (x y : Q) : list Landmark :=
  replicate 8 (mkLandmark 0.5 0.5) ++ [mkLandmark x y]
    ++ replicate 12 (mkLandmark 0.5 0.5).

(** The fresh controller after a calibration on the lower half of the
    frame. *)
Definition calibrated : OpticalController :=
  with_spatial fresh
    (calibrate solve_lower_half (spatial fresh) lower_half_clicks 640 480).1.

(** The fresh controller after the index fingertip of hand 0 pressed
    key 62. *)
Definition pressed : OpticalController :=
  with_mpe fresh (note_on (mpe fresh) (0, 8) 62 80).1
    (<[(0, 8) := 62]> (active_fingers fresh)).

(** The note and the channel of a finger, as the translator and the
    engine record them. *)
Definition finger_state (c : OpticalController) (k : finger)
  : option Z * option (Z * Z) :=
  (active_fingers c !! k, active_notes (mpe c) !! k).

(** Two frames of hand 0 on the fresh controller: the index fingertip
    enters the key zone at abscissa 0.1, and one second later it is seen at
    abscissa 0.9, at the same height 0.8.  Reads, for each frame, the state
    of the finger after it and the messages sent, and whether the filtered
    height of the second frame reaches the entry threshold. *)
Definition slide_run
  : result ((option Z * option (Z * Z)) * list message * bool
            * (option Z * option (Z * Z)) * list message) :=
  '(c1, _, o1) ← _process_hand fresh (hand 0.1 0.8) 0 0;
  '(s2, _) ← tip_filter c1 (hand 0.9 0.8) (0, 8) 1;
  '(c2, _, o2) ← _process_hand c1 (hand 0.9 0.8) 0 1;
  Ok (finger_state c1 (0, 8), o1, Qle_bool KEY_ZONE_TOP (fy s2),
      finger_state c2 (0, 8), o2).

(** One fingertip step on the calibrated controller: the released index
    fingertip of hand 0 is seen at (0.5, 0.8).  Reads the filtered height,
    the projected height, whether the projected height reaches the entry
    threshold, the finger's note before and after, and the messages
    sent. *)
Definition projected_press_run
  : result (Q * Q * bool * option Z * option Z * list message) :=
  '(s, _) ← tip_filter calibrated (hand 0.5 0.8) (0, 8) 0;
  '(c2, _, out) ← process_tip calibrated (hand 0.5 0.8) 0 0 8;
  Ok (Qred (fy s), Qred (py s), Qle_bool KEY_ZONE_TOP (py s),
      active_fingers calibrated !! (0, 8), active_fingers c2 !! (0, 8), out).

(** A filter with speed coefficient 1/2 that has seen the sample [x] at
    time 0. *)
Definition seen (x : Q) : OneEuroFilter :=
  match Filter.call (Filter.new 30 1 (1 # 2) 1) x 0 with
  | Ok (_, f) => f
  | Raise _ => Filter.new 30 1 (1 # 2) 1
  end.

End Examples.

(** ** Invariants of the translator *)

Module Invariants.

Import MPE Controller.

(** Every finger the engine has an association for is a finger the
    translator holds as pressed, and the engine's pool is an exact
    partition of the note-channels. *)
Definition translator_inv (c : OpticalController) : Prop :=
  dom (active_notes (mpe c)) ⊆ dom (active_fingers c) ∧
  exact_partition (mpe c).

(** Line 288 of [run]: [stale] lists, once each and in the order of the
    dictionary, the pressed fingers of the hand slots from [num_hands]
    on. *)
Definition stale_fingers (c : OpticalController) (num_hands : Z)
    (stale : list finger) : Prop :=
  NoDup stale ∧
  ∀ fk, fk ∈ stale ↔ is_Some (active_fingers c !! fk) ∧ (num_hands ≤ fk.1)%Z.

End Invariants.

(** * Properties of the MPE engine *)

Section mpe_facts.
Import MPE Props.
Context `{Countable K}.
Implicit Types (e : MPEEngine K) (f : K) (c : call K).

(** *** Bytes *)

Lemma land_7bit (n : Z) : 0 ≤ Z.land n 0x7F ≤ 127.
Proof.
  pose proof (Z.land_ones n 7 ltac:(lia)) as E.
  change (Z.ones 7) with 127 in E. change (2 ^ 7) with 128 in E.
  rewrite E. pose proof (Z.mod_pos_bound n 128). lia.
Qed.

Lemma clamp_velocity (v : Z) : 0 ≤ Z.max 1 (Z.min 127 v) ≤ 127.
Proof. lia. Qed.

Lemma well_formed_intro (ty ch d1 d2 : Z) :
  ty ∈ message_types → 0 ≤ ch ≤ 15 → 0 ≤ d1 ≤ 127 → 0 ≤ d2 ≤ 127 →
  well_formed [Z.lor ty ch; d1; d2].
Proof. intros. exists ty, ch, d1, d2. auto. Qed.

Lemma message_type_cases (ty : Z) :
  ty ∈ message_types ↔
  ty = NOTE_OFF ∨ ty = NOTE_ON ∨ ty = CONTROL_CHANGE ∨ ty = PITCH_BEND.
Proof.
  unfold message_types. rewrite !elem_of_cons, elem_of_nil. tauto.
Qed.

(** *** Every call keeps the channels in range *)

Lemma channels_ok_init : channels_ok (init (K := K)).
Proof.
  split; simpl.
  - apply Forall_forall. intros c Hc. apply elem_of_seqZ in Hc. lia.
  - apply map_Forall_empty.
Qed.

Lemma channels_ok_step e c : channels_ok e → channels_ok (step e c).1.
Proof.
  intros [Hav Hact]. destruct c as [f n v|f pb y|f n|]; simpl.
  - unfold note_on. destruct (available_channels e) as [|ch rest] eqn:E; simpl.
    + split; [rewrite E; constructor | done].
    + inversion Hav; subst. split; simpl; [done|].
      apply map_Forall_insert_2; done.
  - unfold update_expression.
    destruct (active_notes e !! f) as [[ch st]|]; simpl; split; done.
  - unfold note_off.
    destruct (active_notes e !! f) as [[ch st]|] eqn:E; simpl; [|split; done].
    split; simpl.
    + apply Forall_app. split; [done|].
      constructor; [|constructor]. exact (Hact f (ch, st) E).
    + by apply map_Forall_delete.
  - apply channels_ok_init.
Qed.

Lemma channels_ok_run e cs : channels_ok e → channels_ok (run e cs).1.
Proof.
  revert e. induction cs as [|c cs IH]; intros e He; simpl; [done|].
  pose proof (channels_ok_step e c He) as H1.
  destruct (step e c) as [e1 out1]. specialize (IH e1 H1).
  destruct (run e1 cs) as [e2 out2]. exact IH.
Qed.

(** *** Every call sends well-formed messages *)

Lemma step_well_formed e c :
  channels_ok e → Forall well_formed (step e c).2.
Proof.
  intros [Hav Hact]. destruct c as [f n v|f pb y|f n|]; cbn [step].
  - unfold note_on. destruct (available_channels e) as [|ch rest]; simpl.
    + constructor.
    + inversion Hav as [|? ? Hch _]; subst.
      repeat constructor; apply well_formed_intro;
        rewrite ?message_type_cases; auto using land_7bit with lia.
  - unfold update_expression.
    destruct (active_notes e !! f) as [[ch st]|] eqn:E; simpl; [|constructor].
    pose proof (Hact f (ch, st) E) as Hch. simpl in Hch.
    repeat constructor; apply well_formed_intro;
      rewrite ?message_type_cases; unfold CC_TIMBRE;
      auto using land_7bit with lia.
  - unfold note_off.
    destruct (active_notes e !! f) as [[ch st]|] eqn:E; simpl; [|constructor].
    pose proof (Hact f (ch, st) E) as Hch. simpl in Hch.
    repeat constructor; apply well_formed_intro;
      rewrite ?message_type_cases; auto using land_7bit with lia.
  - unfold all_notes_off. cbn [snd]. apply Forall_fmap, Forall_forall.
    intros ch Hch. unfold py_range in Hch. apply elem_of_seqZ in Hch.
    cbn [compose]. apply well_formed_intro; rewrite ?message_type_cases;
      unfold CC_ALL_NOTES_OFF; auto with lia.
Qed.

Lemma run_well_formed e cs :
  channels_ok e → Forall well_formed (run e cs).2.
Proof.
  revert e. induction cs as [|c cs IH]; intros e He; simpl; [constructor|].
  pose proof (channels_ok_step e c He) as H1.
  pose proof (step_well_formed e c He) as H2.
  destruct (step e c) as [e1 out1]. specialize (IH e1 H1).
  destruct (run e1 cs) as [e2 out2]. simpl in *.
  apply Forall_app; auto.
Qed.


(** *** The pool as a partition of the note-channels *)

Lemma in_use_insert e f ch n :
  active_notes e !! f = None →
  (map_to_list (<[f := (ch, n)]> (active_notes e))).*2.*1 ≡ₚ ch :: in_use e.
Proof.
  intros Hf. unfold in_use. by rewrite (map_to_list_insert _ _ _ Hf).
Qed.

Lemma in_use_delete e f ch n :
  active_notes e !! f = Some (ch, n) →
  ch :: (map_to_list (delete f (active_notes e))).*2.*1 ≡ₚ in_use e.
Proof.
  intros Hf. unfold in_use.
  by rewrite <- (map_to_list_delete _ _ _ Hf).
Qed.

Lemma exact_partition_init : exact_partition (init (K := K)).
Proof.
  unfold exact_partition, in_use, init. cbn [active_notes available_channels].
  by rewrite map_to_list_empty.
Qed.

Lemma exact_partition_step e c :
  match c with
  | NoteOn f _ _ => active_notes e !! f = None
  | _ => True
  end →
  exact_partition e → exact_partition (step e c).1.
Proof.
  unfold exact_partition. intros Hc He.
  destruct c as [f n v|f pb y|f n|]; cbn [step].
  - unfold note_on. destruct (available_channels e) as [|ch rest] eqn:E.
    + cbn [fst]. by rewrite E.
    + cbn [fst]. unfold in_use at 1. cbn [active_notes available_channels].
      rewrite (in_use_insert _ _ _ _ Hc). rewrite <- He.
      cbn [app]. apply Permutation_middle.
  - unfold update_expression.
    by destruct (active_notes e !! f) as [[ch st]|].
  - unfold note_off. destruct (active_notes e !! f) as [[ch st]|] eqn:E;
      cbn [fst]; [|done].
    unfold in_use at 1. cbn [active_notes available_channels].
    rewrite <- He, <- (in_use_delete _ _ _ _ E).
    rewrite app_assoc, <- Permutation_cons_append. done.
  - apply exact_partition_init.
Qed.

Lemma exact_partition_run e cs :
  disciplined e cs → exact_partition e → exact_partition (run e cs).1.
Proof.
  revert e. induction cs as [|c cs IH]; intros e Hd He; [done|].
  destruct Hd as [Hc Hd]. cbn [run].
  pose proof (exact_partition_step e c Hc He) as H1.
  destruct (step e c) as [e1 out1]. cbn [fst] in *.
  specialize (IH e1 Hd H1). by destruct (run e1 cs).
Qed.

Lemma NoDup_note_channels : NoDup note_channels.
Proof. apply NoDup_seqZ. Qed.

Lemma exact_partition_partitions e : exact_partition e → partitions e.
Proof.
  unfold exact_partition, partitions. intros He.
  pose proof NoDup_note_channels as Hnd. rewrite <- He in Hnd.
  apply NoDup_app in Hnd as (_ & Hdisj & _).
  split; [exact Hdisj|]. intros c. by rewrite <- He, elem_of_app.
Qed.

(** Under the caller's discipline, the pool and the active associations
    partition the 15 note-channels after every call, and no channel is
    held by two fingers. *)
Theorem disciplined_calls_partition (cs : list (call K)) :
  disciplined init cs →
  exact_partition (run init cs).1 ∧ partitions (run init cs).1.
Proof.
  intros Hd.
  pose proof (exact_partition_run init cs Hd exact_partition_init).
  auto using exact_partition_partitions.
Qed.

(** *** Saturation *)

Lemma note_on_empty_pool e f n v :
  available_channels e = [] → note_on e f n v = (e, []).
Proof. intros E. unfold note_on. by rewrite E. Qed.

Lemma run_presses e (fs : list (K * Z * Z)) :
  (length fs ≤ length (available_channels e))%nat →
  available_channels (run e (presses fs)).1
    = drop (length fs) (available_channels e) ∧
  dom (active_notes (run e (presses fs)).1)
    = dom (active_notes e) ∪ list_to_set fs.*1.*1.
Proof.
  revert e. induction fs as [|[[f n] v] fs IH]; intros e Hlen.
  - cbn. split; [done|]. by rewrite (right_id_L ∅ (∪)).
  - cbn [presses fmap list_fmap run step]. fold (presses fs).
    unfold note_on.
    destruct (available_channels e) as [|ch rest] eqn:E;
      [cbn in Hlen; lia|].
    match goal with |- context [run ?e1 _] => destruct (IH e1) as [IH1 IH2] end.
    { cbn in *. lia. }
    match goal with |- context [run ?e1 _] => destruct (run e1 (presses fs)) as [e2 out2] end.
    cbn [fst active_notes available_channels] in *.
    split; [by rewrite IH1|]. rewrite IH2, dom_insert_L. cbn.
    by rewrite (assoc_L (∪)), (comm_L (∪) (dom _) {[f]}).
Qed.


(** C7.  From a fresh allocator, after [note_on] for 15 distinct fingers
    there are 15 associations and a further [note_on] is a no-op: the
    engine is unchanged and nothing is sent.  After one [note_off] of an
    active finger, the next [note_on] takes the released channel and
    sounds, and the one after it is a no-op again. *)
Theorem sixteenth_note_on_dropped (fs : list (K * Z * Z)) :
  length fs = 15%nat → NoDup fs.*1.*1 →
  let e15 := (run init (presses fs)).1 in
  size (active_notes e15) = 15%nat ∧
  (∀ f n v, note_on e15 f n v = (e15, [])) ∧
  (∀ g ng, g ∈ fs.*1.*1 →
     ∃ ch stored, active_notes e15 !! g = Some (ch, stored) ∧
     let e14 := (note_off e15 g ng).1 in
     active_notes e14 !! g = None ∧
     ∀ f n v,
       let e15' := (note_on e14 f n v).1 in
       active_notes e15' !! f = Some (ch, n) ∧
       (note_on e14 f n v).2
         = [ [Z.lor PITCH_BEND ch; 0; 64];
             [Z.lor NOTE_ON ch; Z.land n 127; Z.max 1 (Z.min 127 v)] ] ∧
       ∀ f' n' v', note_on e15' f' n' v' = (e15', [])).
Proof.
  intros Hlen Hnd e15.
  destruct (run_presses init fs) as [Hav Hdom].
  { rewrite Hlen. unfold init, py_range. cbn [available_channels].
    rewrite length_seqZ. lia. }
  fold e15 in Hav, Hdom. rewrite Hlen in Hav. cbn in Hav.
  cbn [init active_notes] in Hdom.
  rewrite dom_empty_L, (left_id_L ∅ (∪)) in Hdom.
  split; [|split].
  - rewrite <- size_dom, Hdom, size_list_to_set by done.
    by rewrite !length_fmap.
  - intros. by apply note_on_empty_pool.
  - intros g ng Hg.
    assert (is_Some (active_notes e15 !! g)) as [[ch stored] Eg].
    { apply elem_of_dom. rewrite Hdom. by apply elem_of_list_to_set. }
    exists ch, stored. split; [done|].
    unfold note_off. rewrite Eg, Hav. cbn [fst active_notes app].
    split; [apply lookup_delete_eq|].
    intros f n v. unfold note_on at 1 2. cbn [available_channels fst snd active_notes].
    split; [apply lookup_insert_eq|]. split; [done|].
    intros. by apply note_on_empty_pool.
Qed.

(** C9.  In any state, [all_notes_off] sends CC 123 on each of the 16
    channels 0-15, in order, clears every association and restores the
    pool of the 15 note-channels. *)
Theorem all_notes_off_resets (e : MPEEngine K) :
  (all_notes_off e).2
    = [ [0xB0; 123; 0]; [0xB1; 123; 0]; [0xB2; 123; 0]; [0xB3; 123; 0];
        [0xB4; 123; 0]; [0xB5; 123; 0]; [0xB6; 123; 0]; [0xB7; 123; 0];
        [0xB8; 123; 0]; [0xB9; 123; 0]; [0xBA; 123; 0]; [0xBB; 123; 0];
        [0xBC; 123; 0]; [0xBD; 123; 0]; [0xBE; 123; 0]; [0xBF; 123; 0] ] ∧
  (∀ ch, 0 ≤ ch ≤ 15 →
     [Z.lor CONTROL_CHANGE ch; CC_ALL_NOTES_OFF; 0] ∈ (all_notes_off e).2) ∧
  active_notes (all_notes_off e).1 = ∅ ∧
  in_use (all_notes_off e).1 = [] ∧
  available_channels (all_notes_off e).1
    = [1; 2; 3; 4; 5; 6; 7; 8; 9; 10; 11; 12; 13; 14; 15].
Proof.
  split; [reflexivity|]. split; [|split; [reflexivity|split; [|reflexivity]]].
  - intros ch Hch. unfold all_notes_off. cbn [snd].
    apply list_elem_of_fmap. exists ch. split; [done|].
    apply elem_of_seqZ. lia.
  - unfold in_use, all_notes_off. cbn [fst active_notes].
    by rewrite map_to_list_empty.
Qed.

(** C10.  After any sequence of calls on a fresh engine, every message
    sent by the next call, whatever its arguments, is three bytes: a
    status byte [message_type | channel] with a channel in 0-15, and two
    data bytes in 0-127. *)
Theorem outbound_messages_well_formed (cs : list (call K)) (c : call K) :
  Forall well_formed (step (run init cs).1 c).2 ∧
  Forall well_formed (run init cs).2.
Proof.
  split.
  - apply step_well_formed, channels_ok_run, channels_ok_init.
  - apply run_well_formed, channels_ok_init.
Qed.

End mpe_facts.

Import MPE Props.

(** C1 (defect).  Two [note_on] for the same finger on a fresh engine: the
    association is overwritten, channel 1 is held by no finger and is not
    in the pool either. *)
Theorem repeated_note_on_loses_channel :
  let e := (run (init (K := Z * Z))
              [NoteOn (0, 8) 60 80; NoteOn (0, 8) 62 80]).1 in
  active_notes e = {[ (0, 8) := (2, 62) ]} ∧
  in_use e = [2] ∧
  available_channels e = [3; 4; 5; 6; 7; 8; 9; 10; 11; 12; 13; 14; 15] ∧
  1 ∈ note_channels ∧ (1 ∉ in_use e) ∧ (1 ∉ available_channels e) ∧
  ¬ partitions e.
Proof.
  intros e.
  assert (active_notes e = {[ (0, 8) := (2, 62) ]}) as Ha.
  { subst e. cbn. apply insert_insert_eq. }
  assert (in_use e = [2]) as Hu.
  { unfold in_use. rewrite Ha, map_to_list_singleton. done. }
  assert (available_channels e
          = [3; 4; 5; 6; 7; 8; 9; 10; 11; 12; 13; 14; 15]) as Hv by done.
  assert (1 ∈ note_channels) as H1 by (apply elem_of_seqZ; lia).
  assert (1 ∉ in_use e) as H2.
  { rewrite Hu. rewrite list_elem_of_singleton. lia. }
  assert (1 ∉ available_channels e) as H3.
  { rewrite Hv. rewrite !elem_of_cons, elem_of_nil. lia. }
  repeat split; try done.
  intros [_ Hp]. apply Hp in H1 as [?|?]; done.
Qed.

Lemma sixteenth_note_on_dropped_witness :
  let e15 := (run init (presses Examples.fifteen_fingers)).1 in
  size (active_notes e15) = 15%nat ∧
  ∀ f n v, note_on e15 f n v = (e15, []).
Proof.
  intros e15.
  assert (NoDup Examples.fifteen_fingers.*1.*1) as Hnd.
  { apply (bool_decide_unpack _). vm_compute. exact I. }
  pose proof (sixteenth_note_on_dropped Examples.fifteen_fingers eq_refl Hnd) as Hw.
  split; apply Hw.
Defined.

(** * Properties of the One-Euro filter *)

Module FilterFacts.

Import Filter.
Local Open Scope Q_scope.

Lemma py_div_zero (n d : Q) : d == 0 → py_div n d = Raise ZeroDivisionError.
Proof.
  intros Hd. unfold py_div.
  by rewrite (proj2 (Qeq_bool_iff d 0) Hd).
Qed.

Lemma py_div_nonzero (n d : Q) : ¬ d == 0 → py_div n d = Ok (n / d).
Proof.
  intros Hd. unfold py_div.
  destruct (Qeq_bool d 0) eqn:E; [|done].
  by apply Qeq_bool_iff in E.
Qed.

Lemma py_div_Ok_inv (n d q : Q) :
  py_div n d = Ok q → q = n / d ∧ ¬ d == 0.
Proof.
  unfold py_div. destruct (Qeq_bool d 0) eqn:E; [done|].
  intros [= <-]. split; [done|]. intros Hd.
  apply Qeq_bool_iff in Hd. congruence.
Qed.

Lemma bind_Ok_inv {A B} (r : result A) (k : A → result B) (b : B) :
  r ≫= k = Ok b → ∃ a, r = Ok a ∧ k a = Ok b.
Proof. destruct r as [a|e]; [|done]. intros Hk. by exists a. Qed.

Lemma math_pi_pos : 0 < math_pi.
Proof. reflexivity. Qed.

(** [_alpha] returns whenever the cutoff is not negative and time has
    advanced or stood still. *)
Lemma alpha_ok (te fc : Q) :
  0 <= te → 0 <= fc →
  _alpha te fc = Ok (2 * math_pi * fc * te / (2 * math_pi * fc * te + 1)).
Proof.
  intros Hte Hfc. unfold _alpha. cbv zeta. apply py_div_nonzero.
  pose proof math_pi_pos as Hpi.
  assert (0 <= 2 * math_pi * fc * te).
  { repeat apply Qmult_le_0_compat; lra. }
  lra.
Qed.

(** What one call computes and leaves behind. *)
Lemma call_locals_inv (f : OneEuroFilter) (x t : Q) l f1 :
  call_locals f x t = Ok (l, f1) →
  _x_prev f1 = Some (x_hat l) ∧ _t_prev f1 = Some t ∧
  _dx_prev f1 = dx_hat l ∧
  match _t_prev f with
  | Some tp => t_e l = t - tp
  | None => t_e l = 1 / freq f
  end ∧
  match _x_prev f with
  | Some xp => dx l = (x - xp) / t_e l ∧ x_hat l = a l * x + (1 - a l) * xp
  | None => dx l = 0 ∧ x_hat l = x
  end.
Proof.
  unfold call_locals. intros Hc.
  apply bind_Ok_inv in Hc as (te & Hte & Hc).
  apply bind_Ok_inv in Hc as (ad & Had & Hc).
  apply bind_Ok_inv in Hc as (d & Hd & Hc).
  apply bind_Ok_inv in Hc as (a0 & Ha & Hc).
  simplify_eq. cbn. repeat split.
  - destruct (_t_prev f); [by simplify_eq|].
    by apply py_div_Ok_inv in Hte as [-> _].
  - destruct (_x_prev f); [|by simplify_eq].
    apply py_div_Ok_inv in Hd as [-> _]. done.
Qed.

(** With a previous sample of the same timestamp, the call divides by the
    zero elapsed time. *)
Lemma call_same_timestamp (f : OneEuroFilter) (x t xp : Q) :
  _x_prev f = Some xp → _t_prev f = Some t → 0 <= d_cutoff f →
  call f x t = Raise ZeroDivisionError.
Proof.
  intros Hx Ht Hd. unfold call, call_locals. rewrite Hx, Ht.
  cbn [mbind result_bind].
  rewrite alpha_ok; [|lra|done]. cbn [mbind result_bind].
  rewrite py_div_zero; [done|ring].
Qed.

(** The call returns when time has advanced and the parameters are not
    negative. *)
Lemma call_returns (f : OneEuroFilter) (x t : Q) :
  0 < freq f → 0 <= min_cutoff f → 0 <= beta f → 0 <= d_cutoff f →
  (∀ tp, _t_prev f = Some tp → tp < t) →
  ∃ y f', call f x t = Ok (y, f').
Proof.
  intros Hfreq Hmin Hbeta Hd Ht. unfold call, call_locals.
  assert (∃ te, 0 < te ∧
            match _t_prev f with
            | Some t_prev => Ok (t - t_prev)
            | None => py_div 1 (freq f)
            end = Ok te) as (te & Hte & ->).
  { destruct (_t_prev f) as [tp|].
    - exists (t - tp). specialize (Ht tp eq_refl). split; [lra|done].
    - exists (1 / freq f). split.
      + apply Qlt_shift_div_l; lra.
      + apply py_div_nonzero. lra. }
  cbn [mbind result_bind].
  rewrite alpha_ok; [|lra|done]. cbn [mbind result_bind].
  assert (∃ d, match _x_prev f with
               | Some x_prev => py_div (x - x_prev) te
               | None => Ok 0
               end = Ok d) as [d ->].
  { destruct (_x_prev f) as [xp|]; [|by eexists].
    eexists. apply py_div_nonzero. lra. }
  cbn [mbind result_bind].
  rewrite alpha_ok; [| lra |].
  - cbn [mbind result_bind]. by eexists _, _.
  - match goal with |- 0 <= _ + _ * Qabs ?u =>
      pose proof (Qabs_nonneg u) as Habs;
      pose proof (Qmult_le_0_compat _ _ Hbeta Habs) end.
    lra.
Qed.

Lemma feed_cons_inv f x t rest ls f' :
  feed f ((x, t) :: rest) = Ok (ls, f') →
  ∃ l f1 ls', call_locals f x t = Ok (l, f1) ∧ feed f1 rest = Ok (ls', f') ∧
              ls = l :: ls'.
Proof.
  cbn [feed]. intros Hf.
  apply bind_Ok_inv in Hf as ([l f1] & Hc & Hf).
  apply bind_Ok_inv in Hf as ([ls' f2] & Hr & Hf).
  simplify_eq. by exists l, f1, ls'.
Qed.

(** In a run of the filter, each call after another differentiates
    against the value the preceding call returned. *)
Lemma feed_consecutive samples : ∀ f ls f' (i : nat) l0 l1 x0 t0 x1 t1,
  feed f samples = Ok (ls, f') →
  ls !! i = Some l0 → ls !! S i = Some l1 →
  samples !! i = Some (x0, t0) → samples !! S i = Some (x1, t1) →
  t_e l1 = t1 - t0 ∧ dx l1 = (x1 - x_hat l0) / (t1 - t0).
Proof.
  induction samples as [|[x t] rest IH]; intros f ls f' i l0 l1 x0 t0 x1 t1 Hf;
    [by rewrite lookup_nil|].
  apply feed_cons_inv in Hf as (l & f1 & ls' & Hc & Hrest & ->).
  destruct i as [|i]; cbn [lookup list_lookup].
  - intros [= <-] Hl1 [= <- <-] Hs1.
    destruct rest as [|[x1' t1'] rest']; [done|]. cbn in Hs1.
    injection Hs1 as -> ->.
    apply feed_cons_inv in Hrest as (l1' & f2 & ls'' & Hc1 & _ & ->).
    cbn in Hl1. injection Hl1 as ->.
    apply call_locals_inv in Hc as (Hx & Ht & _).
    apply call_locals_inv in Hc1 as (_ & _ & _ & Hte & Hdx).
    rewrite Ht in Hte. rewrite Hx in Hdx. destruct Hdx as [Hdx _].
    split; [done|]. by rewrite Hdx, Hte.
  - intros Hl0 Hl1 Hs0 Hs1. by eapply IH.
Qed.

End FilterFacts.

Import Filter.

(** C5 (defect).  Two samples with the same timestamp: the first call
    returns its input, the second divides by the zero elapsed time and
    raises [ZeroDivisionError]. *)
Theorem repeated_timestamp_divides_by_zero :
  ∃ f1, call Examples.fresh_filter 0.5 1 = Ok (0.5%Q, f1) ∧
        _x_prev f1 = Some 0.5%Q ∧ _t_prev f1 = Some 1%Q ∧
        call f1 0.6 1 = Raise ZeroDivisionError.
Proof.
  eexists. split; [vm_compute; reflexivity|].
  split; [reflexivity|]. split; [reflexivity|].
  by eapply FilterFacts.call_same_timestamp.
Qed.

(** C6 (amended).  In a run of calls on a filter without history, the
    derivative estimate of the first call is zero, and that of every later
    call is (current raw value − value returned by the preceding call) /
    (current timestamp − preceding timestamp): the filter remembers its
    previous output, not its previous input.  The first call returns its
    input, so the two agree on the second call only. *)
Theorem derivative_from_previous_output
    (f : OneEuroFilter) (samples : list (Q * Q)) (ls : list locals)
    (f' : OneEuroFilter) :
  _x_prev f = None →
  feed f samples = Ok (ls, f') →
  (∀ l, ls !! 0%nat = Some l → dx l = 0%Q) ∧
  (∀ l x t, ls !! 0%nat = Some l → samples !! 0%nat = Some (x, t) →
     x_hat l = x) ∧
  (∀ (i : nat) l0 l1 x0 t0 x1 t1,
     ls !! i = Some l0 → ls !! S i = Some l1 →
     samples !! i = Some (x0, t0) → samples !! S i = Some (x1, t1) →
     dx l1 = ((x1 - x_hat l0) / (t1 - t0))%Q).
Proof.
  intros Hx Hf. split; [|split].
  - intros l Hl. destruct samples as [|[x t] rest]; [cbn in Hf; by simplify_eq|].
    apply FilterFacts.feed_cons_inv in Hf as (l' & f1 & ls' & Hc & _ & ->).
    cbn in Hl. simplify_eq.
    apply FilterFacts.call_locals_inv in Hc as (_ & _ & _ & _ & Hd).
    rewrite Hx in Hd. apply Hd.
  - intros l x t Hl Hs. destruct samples as [|[x' t'] rest]; [done|].
    apply FilterFacts.feed_cons_inv in Hf as (l' & f1 & ls' & Hc & _ & ->).
    cbn in Hl, Hs. simplify_eq.
    apply FilterFacts.call_locals_inv in Hc as (_ & _ & _ & _ & Hd).
    rewrite Hx in Hd. apply Hd.
  - intros i l0 l1 x0 t0 x1 t1 H0 H1 H2 H3.
    by destruct (FilterFacts.feed_consecutive samples f ls f' i
                   l0 l1 x0 t0 x1 t1).
Qed.

Lemma derivative_from_previous_output_witness :
  ∃ ls f', feed Examples.fresh_filter [(0, 0); (1, 1); (2, 2)]%Q = Ok (ls, f') ∧
           ∀ l, ls !! 0%nat = Some l → dx l = 0%Q.
Proof.
  eexists _, _. split; [vm_compute; reflexivity|].
  eapply (derivative_from_previous_output Examples.fresh_filter
            [(0, 0); (1, 1); (2, 2)]%Q); [reflexivity|].
  vm_compute. reflexivity.
Defined.

(** C6 as stated fails on the third call of the run 0, 1, 2 sampled at
    times 0, 1, 2: the second call returned a smoothed value below 1, so
    the derivative estimate is not (2 − 1) / (2 − 1). *)
Lemma derivative_not_from_previous_raw :
  ∃ l1 l2 l3 f',
    feed Examples.fresh_filter [(0, 0); (1, 1); (2, 2)]%Q
      = Ok ([l1; l2; l3], f') ∧
    (x_hat l2 < 1)%Q ∧
    (dx l3 == (2 - x_hat l2) / (2 - 1))%Q ∧
    ¬ (dx l3 == (2 - 1) / (2 - 1))%Q.
Proof.
  eexists _, _, _, _. split; [vm_compute; reflexivity|].
  split; [reflexivity|]. split; [reflexivity|].
  apply Qeq_bool_neq. vm_compute. reflexivity.
Qed.

(** * Properties of the perspective mapper *)

Module SpatialFacts.

Import Spatial Props.

Lemma inject_Z_nonzero (z : Z) : z ≠ 0 → ¬ (inject_Z z == 0)%Q.
Proof. unfold Qeq. cbn. lia. Qed.

Lemma normalise_zero_dimension pts (w h : Z) :
  pts ≠ [] → w = 0 ∨ h = 0 → normalise pts w h = Raise ZeroDivisionError.
Proof.
  destruct pts as [|[x y] rest]; [done|]. intros _ Hwh. cbn [normalise].
  destruct (decide (w = 0)) as [->|Hw].
  { rewrite (FilterFacts.py_div_zero (inject_Z x) (inject_Z 0)); reflexivity. }
  destruct Hwh as [?| ->]; [done|].
  rewrite (FilterFacts.py_div_nonzero (inject_Z x) (inject_Z w))
    by by apply inject_Z_nonzero.
  cbn [mbind result_bind].
  rewrite (FilterFacts.py_div_zero (inject_Z y) (inject_Z 0)); reflexivity.
Qed.

Lemma normalise_returns pts (w h : Z) :
  w ≠ 0 → h ≠ 0 → ∃ ps, normalise pts w h = Ok ps.
Proof.
  intros Hw Hh. induction pts as [|[x y] rest [ps IH]]; [by eexists|].
  cbn [normalise].
  rewrite (FilterFacts.py_div_nonzero (inject_Z x) (inject_Z w))
    by by apply inject_Z_nonzero.
  rewrite (FilterFacts.py_div_nonzero (inject_Z y) (inject_Z h))
    by by apply inject_Z_nonzero.
  cbn [mbind result_bind]. rewrite IH. by eexists.
Qed.

(** C4 (amended).  [calibrate] raises [ValueError] when the number of
    points is not four and [ZeroDivisionError] when a frame dimension is
    zero; after a call that raised, the calibration is the one before the
    call and [project_point] behaves as before.  With four points and
    non-zero frame dimensions the call does not raise, whatever the points:
    the calibration becomes the solver's answer for the normalised
    points. *)
Theorem calibrate_failure_keeps_calibration
    (findHomography : list (Q * Q) → list (Q * Q) → option matrix)
    (s : SpatialEngine) (pts : list (Z * Z)) (w h : Z) :
  let s' := (calibrate findHomography s pts w h).1 in
  let r := (calibrate findHomography s pts w h).2 in
  (length pts ≠ 4%nat → r = Raise ValueError) ∧
  (length pts = 4%nat → w = 0 ∨ h = 0 → r = Raise ZeroDivisionError) ∧
  (length pts = 4%nat → w ≠ 0 → h ≠ 0 →
     r = Ok () ∧
     ∃ src_norm, normalise pts w h = Ok src_norm ∧
                 homography_matrix s' = findHomography src_norm dst_norm) ∧
  (∀ e, r = Raise e →
     s' = s ∧ ∀ x y, project_point s' x y = project_point s x y).
Proof.
  intros s' r. subst s' r. unfold calibrate.
  split; [|split; [|split]].
  - intros Hn. by rewrite bool_decide_eq_true_2.
  - intros Hn Hwh. rewrite bool_decide_eq_false_2 by (rewrite Hn; auto).
    rewrite normalise_zero_dimension; [done| |done].
    by destruct pts.
  - intros Hn Hw Hh. rewrite bool_decide_eq_false_2 by (rewrite Hn; auto).
    destruct (normalise_returns pts w h Hw Hh) as [ps Hps]. rewrite Hps.
    split; [done|]. by exists ps.
  - intros e. case_bool_decide; [done|].
    by destruct (normalise pts w h).
Qed.

(** The homography [lower_half] sends the normalised clicks on the lower
    half of the frame to the corners of the unit square. *)
Lemma lower_half_maps_corners :
  ∃ src_norm,
    normalise Examples.lower_half_clicks 640 480 = Ok src_norm ∧
    Forall2 (λ p q : Q * Q,
               ((perspectiveTransform Examples.lower_half p.1 p.2).1 == q.1 ∧
                (perspectiveTransform Examples.lower_half p.1 p.2).2 == q.2)%Q)
      src_norm dst_norm.
Proof.
  eexists. split; [reflexivity|]. repeat constructor.
Qed.

(** C4 as stated fails: on a mapper calibrated for the lower half of the
    frame, four clicks on one line are accepted without an error, and the
    solver finding no homography for them leaves the mapper uncalibrated:
    the point (0.5, 0.8), projected to height 0.6 before the call, is
    returned unchanged after it. *)
Lemma degenerate_calibration_accepted :
  let s0 := (calibrate Examples.solve_lower_half Spatial.init
               Examples.lower_half_clicks 640 480).1 in
  let s1 := (calibrate Examples.solve_lower_half s0
               Examples.collinear_clicks 640 480).1 in
  let r := (calibrate Examples.solve_lower_half s0
              Examples.collinear_clicks 640 480).2 in
  length Examples.collinear_clicks = 4%nat ∧
  degenerate Examples.collinear_clicks ∧
  homography_matrix s0 = Some Examples.lower_half ∧
  r = Ok () ∧
  homography_matrix s1 = None ∧
  ((project_point s0 0.5 0.8).2 == 0.6)%Q ∧
  ((project_point s1 0.5 0.8).2 == 0.8)%Q ∧
  ¬ ((project_point s1 0.5 0.8).2 == (project_point s0 0.5 0.8).2)%Q.
Proof.
  cbv zeta. split; [reflexivity|]. split.
  { unfold degenerate, Examples.collinear_clicks. repeat constructor. }
  split; [reflexivity|]. split; [reflexivity|]. split; [reflexivity|].
  split; [reflexivity|]. split; [reflexivity|].
  apply Qeq_bool_neq. reflexivity.
Qed.

End SpatialFacts.

(** * Properties of the gesture translator *)

Module ControllerFacts.

Import MPE Filter Spatial Controller Props.

(** [int] is the floor on values that are not negative. *)
Lemma py_int_floor (q : Q) : (0 <= q)%Q → py_int q = Qfloor q.
Proof.
  destruct q as [n d]. unfold Qle, py_int. cbn. intros Hn.
  apply Z.quot_div_nonneg; lia.
Qed.

(** The expression [max(0.0, min(0.9999, x))] is [clamp(x, 0, 0.9999)]. *)
Lemma clamp_expression (x : Q) :
  (Qmax 0 (Qmin 0.9999 x) == clamp x 0 0.9999)%Q.
Proof.
  unfold clamp.
  destruct (Q.max_spec 0 (Qmin 0.9999 x)) as [[H1 ->]|[H1 ->]];
    destruct (Q.min_spec 0.9999 x) as [[H2 H3]|[H2 H3]];
    rewrite H3 in H1; try rewrite H3;
    destruct (Qlt_le_dec x 0); try destruct (Qlt_le_dec 0.9999 x); lra.
Qed.

Lemma clamp_bounds (x : Q) : (0 <= clamp x 0 0.9999 <= 0.9999)%Q.
Proof.
  unfold clamp.
  destruct (Qlt_le_dec x 0); [lra|]. destruct (Qlt_le_dec 0.9999 x); lra.
Qed.


(** What [tip_filter] reads and what it leaves untouched. *)
Lemma tip_filter_inv c landmarks (k : finger) (t : Q) s c1 :
  tip_filter c landmarks k t = Ok (s, c1) →
  ∃ tip filt_x filt_y filt_x' filt_y',
    landmarks !! Z.to_nat k.2 = Some tip ∧
    filters_x c !! k = Some filt_x ∧
    filters_y c !! k = Some filt_y ∧
    Filter.call filt_x (lm_x tip) t = Ok (fx s, filt_x') ∧
    Filter.call filt_y (lm_y tip) t = Ok (fy s, filt_y') ∧
    project_point (spatial c) (fx s) (fy s) = (px s, py s) ∧
    c1 = {| note_start := note_start c; note_end := note_end c;
            num_notes := num_notes c; spatial := spatial c; mpe := mpe c;
            filters_x := <[k := filt_x']> (filters_x c);
            filters_y := <[k := filt_y']> (filters_y c);
            active_fingers := active_fingers c |}.
Proof.
  unfold tip_filter. intros Hf.
  apply FilterFacts.bind_Ok_inv in Hf as (tip & Htip & Hf).
  apply FilterFacts.bind_Ok_inv in Hf as (filt_x & Hfx & Hf).
  apply FilterFacts.bind_Ok_inv in Hf as ([vx filt_x'] & Hcx & Hf).
  apply FilterFacts.bind_Ok_inv in Hf as (filt_y & Hfy & Hf).
  apply FilterFacts.bind_Ok_inv in Hf as ([vy filt_y'] & Hcy & Hf).
  destruct (project_point (spatial c) vx vy) as [vpx vpy] eqn:Hp.
  simplify_eq. cbn.
  exists tip, filt_x, filt_y, filt_x', filt_y'.
  destruct (landmarks !! Z.to_nat k.2); [|done].
  destruct (filters_x c !! k); [|done].
  destruct (filters_y c !! k); [|done].
  by simplify_eq.
Qed.

(** The decision of a released fingertip. *)
Lemma tip_logic_released c (k : finger) (fy px : Q) :
  active_fingers c !! k = None →
  ((KEY_ZONE_TOP <= fy)%Q →
     let note := _note_from_x c px in
     tip_logic c k fy px
       = (with_mpe c (note_on (mpe c) k note 80).1
            (<[k := note]> (active_fingers c)),
          [note], (note_on (mpe c) k note 80).2)) ∧
  (¬ (KEY_ZONE_TOP <= fy)%Q → tip_logic c k fy px = (c, [], [])).
Proof.
  intros Hk. unfold tip_logic. rewrite Hk. split.
  - intros Hfy. apply Qle_bool_iff in Hfy. rewrite Hfy. cbv zeta.
    by destruct (note_on (mpe c) k (_note_from_x c px) 80).
  - intros Hfy. destruct (Qle_bool KEY_ZONE_TOP fy) eqn:E; [|done].
    by apply Qle_bool_iff in E.
Qed.

(** C3 (amended).  For a released fingertip, the press fires exactly when
    the vertical coordinate returned by the filter, before any projection,
    is at or above the entry threshold 0.76.  The projection only chooses
    the note: it is read at the projected abscissa. *)
Theorem press_decided_on_filtered_height
    (c : OpticalController) (landmarks : list Landmark) (hand_idx : Z)
    (t : Q) (tip_id : Z) (c' : OpticalController) (notes : list Z)
    (out : list message) :
  let k := (hand_idx, tip_id) in
  active_fingers c !! k = None →
  process_tip c landmarks hand_idx t tip_id = Ok (c', notes, out) →
  ∃ tip filt_x filt_y vx vy filt_x' filt_y',
    landmarks !! Z.to_nat tip_id = Some tip ∧
    filters_x c !! k = Some filt_x ∧
    filters_y c !! k = Some filt_y ∧
    Filter.call filt_x (lm_x tip) t = Ok (vx, filt_x') ∧
    Filter.call filt_y (lm_y tip) t = Ok (vy, filt_y') ∧
    (is_Some (active_fingers c' !! k) ↔ (KEY_ZONE_TOP <= vy)%Q) ∧
    ((KEY_ZONE_TOP <= vy)%Q →
       let note := _note_from_x c (project_point (spatial c) vx vy).1 in
       active_fingers c' !! k = Some note ∧ notes = [note] ∧
       out = (note_on (mpe c) k note 80).2) ∧
    (¬ (KEY_ZONE_TOP <= vy)%Q → notes = [] ∧ out = []).
Proof.
  intros k Hk Hp. unfold process_tip in Hp. fold k in Hp.
  apply FilterFacts.bind_Ok_inv in Hp as ([s c1] & Hf & Hp).
  apply tip_filter_inv in Hf
    as (tip & filt_x & filt_y & filt_x' & filt_y' &
        Htip & Hfx & Hfy & Hcx & Hcy & Hproj & ->).
  exists tip, filt_x, filt_y, (fx s), (fy s), filt_x', filt_y'.
  do 5 (split; [done|]).
  match type of Hp with Ok (tip_logic ?c1 _ _ _) = _ =>
    destruct (tip_logic_released c1 k (fy s) (px s) Hk) as [Hpress Hrest] end.
  rewrite Hproj. cbn [fst].
  destruct (Qlt_le_dec (fy s) KEY_ZONE_TOP) as [Hlow|Hhigh].
  - assert (¬ (KEY_ZONE_TOP <= fy s)%Q) as Hn by lra.
    rewrite (Hrest Hn) in Hp. simplify_eq. cbn [active_fingers].
    split; [|split; [done|done]].
    rewrite Hk. split; [by intros [? ?]|done].
  - rewrite (Hpress Hhigh) in Hp. cbv zeta in Hp. simplify_eq.
    cbn [with_mpe active_fingers mpe]. rewrite lookup_insert_eq.
    split; [|split; [done|done]]. split; [done|by eexists].
Qed.

(** C2 (amended).  When a pressed fingertip slides to another note inside
    the key zone, the translator releases the finger's channel and
    allocates again: a note-off for the old note and a pitch-bend reset go
    out on the old channel, then a pitch-bend reset and a note-on for the
    new note on the channel at the head of the free pool, to which the old
    channel was appended last.  The finger keeps its channel only when the
    pool was empty before the slide. *)
Theorem slide_reallocates_channel
    (c : OpticalController) (k : finger) (fy px : Q) (old ch stored : Z) :
  active_fingers c !! k = Some old →
  (KEY_ZONE_TOP <= fy)%Q →
  _note_from_x c px ≠ old →
  active_notes (mpe c) !! k = Some (ch, stored) →
  let note := _note_from_x c px in
  let ch' := hd ch (available_channels (mpe c)) in
  let c' := (tip_logic c k fy px).1.1 in
  (tip_logic c k fy px).2
    = [ [Z.lor NOTE_OFF ch; Z.land old 127; 0];
        [Z.lor PITCH_BEND ch; 0; 64];
        [Z.lor PITCH_BEND ch'; 0; 64];
        [Z.lor NOTE_ON ch'; Z.land note 127; 80] ] ∧
  active_fingers c' !! k = Some note ∧
  active_notes (mpe c') !! k = Some (ch', note) ∧
  available_channels (mpe c') = tail (available_channels (mpe c) ++ [ch]) ∧
  (available_channels (mpe c) = [] → ch' = ch) ∧
  (ch ∉ available_channels (mpe c) → ch' = ch →
     available_channels (mpe c) = []).
Proof.
  intros Hk Hfy Hnote Hch note ch' c'. subst c'.
  unfold tip_logic. apply Qle_bool_iff in Hfy. rewrite Hfy, Hk.
  rewrite bool_decide_eq_true_2 by (intros E; by apply Hnote).
  unfold note_off. rewrite Hch. unfold note_on.
  cbn [available_channels active_notes].
  fold note. subst ch'.
  destruct (available_channels (mpe c)) as [|a rest].
  - cbn. rewrite !lookup_insert_eq. repeat split; done.
  - cbn. rewrite !lookup_insert_eq. repeat split; try done.
    intros Hnin ->. exfalso. apply Hnin. by left.
Qed.

End ControllerFacts.

Import MPE Filter Spatial Controller Props.


Lemma press_decided_on_filtered_height_witness :
  ∃ c' notes out vy,
    process_tip Examples.calibrated (Examples.hand 0.5 0.8) 0 0 8
      = Ok (c', notes, out) ∧
    (is_Some (active_fingers c' !! (0, 8)) ↔ (KEY_ZONE_TOP <= vy)%Q).
Proof.
  assert (∃ r, process_tip Examples.calibrated (Examples.hand 0.5 0.8) 0 0 8
               = Ok r) as [[[c' notes] out] Hp].
  { eexists. vm_compute. reflexivity. }
  destruct (ControllerFacts.press_decided_on_filtered_height
              Examples.calibrated (Examples.hand 0.5 0.8) 0 0 8 c' notes out
              eq_refl Hp)
    as (tip & filt_x & filt_y & vx & vy & filt_x' & filt_y' &
        _ & _ & _ & _ & _ & Hiff & _).
  by exists c', notes, out, vy.
Defined.

(** C3 as stated fails: on the controller calibrated for the lower half
    of the frame, a released index fingertip at (0.5, 0.8) is filtered to
    height 4/5 and projected to height 3/5, which does not reach the entry
    threshold, and the press fires all the same: the finger becomes active
    with note 72 and a note-on goes out on channel 1. *)
Lemma press_ignores_projection :
  Examples.projected_press_run
    = Ok ((4 # 5)%Q, (3 # 5)%Q, false, None, Some 72,
          [ [0xE1; 0; 64]; [0x91; 72; 80] ]).
Proof. vm_compute. reflexivity. Qed.

Lemma slide_reallocates_channel_witness :
  active_notes (mpe (tip_logic Examples.pressed (0, 8) 0.8 0.9).1.1) !! (0, 8)
    = Some (2, 81).
Proof.
  assert (KEY_ZONE_TOP <= 0.8)%Q as Hfy by (by apply Qle_bool_iff).
  assert (_note_from_x Examples.pressed 0.9 ≠ 62) as Hnote
    by (vm_compute; discriminate).
  pose proof (ControllerFacts.slide_reallocates_channel
                Examples.pressed (0, 8) 0.8 0.9 62 1 62
                eq_refl Hfy Hnote eq_refl) as (_ & _ & Hch & _).
  exact Hch.
Defined.

(** C2 as stated fails: on the fresh controller, the index fingertip of
    hand 0 presses key 62 and is given channel 1; in the next frame it has
    slid to key 78 without leaving the key zone; a note-off for 62 goes out
    on channel 1 and the note-on for 78 on channel 2, which is the finger's
    channel from then on: channel 1 went to the back of the pool and the
    head of the pool was allocated. *)
Lemma slide_takes_another_channel :
  Examples.slide_run
    = Ok ((Some 62, Some (1, 62)),
          [ [0xE1; 0; 64]; [0x91; 62; 80] ],
          true,
          (Some 78, Some (2, 78)),
          [ [0x81; 62; 0]; [0xE1; 0; 64]; [0xE2; 0; 64]; [0x92; 78; 80] ]).
Proof. vm_compute. reflexivity. Qed.

(** * Further properties of the MPE engine *)

Section mpe_more.
Import MPE Props.
Context `{Countable K}.
Implicit Types (e : MPEEngine K) (f : K) (c : call K).

(** The channels of a map of associations after an insertion. *)
Lemma channels_insert (m : gmap K (Z * Z)) f (v : Z * Z) :
  (map_to_list (<[f := v]> m)).*2.*1
    ≡ₚ v.1 :: (map_to_list (delete f m)).*2.*1.
Proof.
  rewrite <- insert_delete_eq.
  by rewrite map_to_list_insert by apply lookup_delete_eq.
Qed.

Lemma channels_delete (m : gmap K (Z * Z)) f (v : Z * Z) :
  m !! f = Some v →
  (map_to_list m).*2.*1 ≡ₚ v.1 :: (map_to_list (delete f m)).*2.*1.
Proof. intros Hf. by rewrite <- (map_to_list_delete _ _ _ Hf). Qed.

Lemma unshared_step e c :
  NoDup (in_use e ++ available_channels e) →
  NoDup (in_use (step e c).1 ++ available_channels (step e c).1).
Proof.
  intros He. destruct c as [f n v|f pb y|f n|]; cbn [step].
  - unfold note_on. destruct (available_channels e) as [|ch rest] eqn:E;
      cbn [fst]; [by rewrite E|].
    unfold in_use in *. cbn [active_notes available_channels].
    rewrite channels_insert. cbn [fst].
    destruct (active_notes e !! f) as [v0|] eqn:Ef.
    + rewrite (channels_delete _ _ _ Ef) in He. cbn [app] in He.
      apply NoDup_cons in He as [_ He].
      by rewrite <- Permutation_middle in He.
    + rewrite (delete_id _ _ Ef).
      by rewrite <- Permutation_middle in He.
  - unfold update_expression. by destruct (active_notes e !! f) as [[ch st]|].
  - unfold note_off. destruct (active_notes e !! f) as [[ch st]|] eqn:Ef;
      cbn [fst]; [|done].
    unfold in_use in *. cbn [active_notes available_channels].
    rewrite (channels_delete _ _ _ Ef) in He. cbn [fst app] in He.
    by rewrite app_assoc, <- Permutation_cons_append.
  - unfold all_notes_off, in_use. cbn [fst active_notes available_channels].
    rewrite map_to_list_empty. apply NoDup_seqZ.
Qed.

Lemma unshared_run e cs :
  NoDup (in_use e ++ available_channels e) →
  NoDup (in_use (run e cs).1 ++ available_channels (run e cs).1).
Proof.
  revert e. induction cs as [|c cs IH]; intros e He; [done|]. cbn [run].
  pose proof (unshared_step e c He) as H1.
  destruct (step e c) as [e1 out1]. specialize (IH e1 H1).
  by destruct (run e1 cs).
Qed.

(** Whatever the sequence of calls on a fresh engine, repeated [note_on]
    for a finger included: no channel is held by two fingers or both held
    and free, every channel held or free is one of the note-channels 1-15,
    and the master channel 0 is never allocated. *)
Theorem channels_never_shared (cs : list (call K)) :
  let e := (run init cs).1 in
  NoDup (in_use e ++ available_channels e) ∧
  (∀ ch, ch ∈ in_use e ++ available_channels e → 1 ≤ ch ≤ 15) ∧
  (∀ f ch n, active_notes e !! f = Some (ch, n) → ch ≠ 0) ∧
  (length (in_use e) + length (available_channels e) ≤ 15)%nat.
Proof.
  intros e.
  assert (NoDup (in_use e ++ available_channels e)) as Hnd.
  { apply unshared_run. unfold in_use, init.
    cbn [active_notes available_channels].
    rewrite map_to_list_empty. apply NoDup_seqZ. }
  destruct (channels_ok_run init cs channels_ok_init) as [Hav Hact].
  fold e in Hav, Hact.
  assert (∀ ch, ch ∈ in_use e ++ available_channels e → 1 ≤ ch ≤ 15) as Hin.
  { intros ch [Hch|Hch]%elem_of_app.
    - unfold in_use in Hch.
      apply list_elem_of_fmap in Hch as ([c n] & -> & Hch).
      apply list_elem_of_fmap in Hch as ([f v] & Hv & Hch).
      cbn in Hv. subst v.
      apply elem_of_map_to_list in Hch. exact (Hact f (c, n) Hch).
    - by apply (proj1 (Forall_forall _ _) Hav). }
  split; [exact Hnd|]. split; [exact Hin|]. split.
  - intros f ch n Hf. pose proof (Hact f (ch, n) Hf) as Hc. cbn in Hc. lia.
  - rewrite <- length_app.
    change 15%nat with (length (seqZ 1 15)) at 1.
    rewrite length_seqZ. change (Z.to_nat 15) with (length (seqZ 1 15)).
    apply submseteq_length, NoDup_submseteq; [exact Hnd|].
    intros ch Hch. apply elem_of_seqZ. specialize (Hin ch Hch). lia.
Qed.

(** A [note_on] for a finger without association followed by its
    [note_off] restores the associations; the channel taken from the head
    of the pool comes back at its end, and the note-off carries the note
    that was sounded. *)
Theorem note_on_off_round_trip e f (n v ch : Z) (rest : list Z) :
  active_notes e !! f = None →
  available_channels e = ch :: rest →
  note_off (note_on e f n v).1 f None
    = ({| active_notes := active_notes e;
          available_channels := rest ++ [ch] |},
       [ [Z.lor NOTE_OFF ch; Z.land n 127; 0];
         [Z.lor PITCH_BEND ch; 0; 64] ]).
Proof.
  intros Hf Hav. unfold note_on. rewrite Hav. cbn [fst].
  unfold note_off. cbn [active_notes available_channels].
  rewrite lookup_insert_eq. by rewrite delete_insert_id.
Qed.


Lemma run_cons_state e c cs : (run e (c :: cs)).1 = (run (step e c).1 cs).1.
Proof.
  cbn [run]. destruct (step e c) as [e1 out1]. cbn [fst].
  by destruct (run e1 cs).
Qed.

(** Presses of other fingers leave a finger's association alone. *)
Lemma run_presses_other e (fs : list (K * Z * Z)) f :
  f ∉ fs.*1.*1 →
  active_notes (run e (presses fs)).1 !! f = active_notes e !! f.
Proof.
  revert e. induction fs as [|[[g n] v] fs IH]; intros e Hf; [done|].
  cbn in Hf. apply not_elem_of_cons in Hf as [Hfg Hf].
  cbn [presses fmap list_fmap]. fold (presses fs).
  rewrite run_cons_state, IH by done. cbn [step].
  unfold note_on. destruct (available_channels e); [done|].
  cbn [fst active_notes]. by rewrite lookup_insert_ne.
Qed.

Lemma run_presses_nth e (fs : list (K * Z * Z)) :
  NoDup fs.*1.*1 →
  ∀ (i : nat) f n v ch,
    fs !! i = Some (f, n, v) → available_channels e !! i = Some ch →
    active_notes (run e (presses fs)).1 !! f = Some (ch, n).
Proof.
  revert e. induction fs as [|[[g m] w] fs IH]; intros e Hnd i f n v ch Hi Hch;
    [done|].
  cbn in Hnd. apply NoDup_cons in Hnd as [Hg Hnd].
  cbn [presses fmap list_fmap]. fold (presses fs).
  rewrite run_cons_state. cbn [step].
  destruct (available_channels e) as [|c0 rest] eqn:Eav; [done|].
  destruct i as [|i]; cbn in Hi, Hch; simplify_eq.
  - rewrite run_presses_other by done.
    unfold note_on. rewrite Eav. cbn [fst active_notes].
    apply lookup_insert_eq.
  - apply (IH _ Hnd i f n v ch Hi).
    unfold note_on. by rewrite Eav.
Qed.

(** Allocation is first-available: on a fresh engine, the i-th of up to
    15 distinct fingers to press (counting from 0) sounds its note on
    channel i + 1. *)
Theorem fresh_allocation_in_order (fs : list (K * Z * Z)) :
  NoDup fs.*1.*1 →
  ∀ (i : nat) f n v,
    (i < 15)%nat → fs !! i = Some (f, n, v) →
    active_notes (run init (presses fs)).1 !! f = Some (Z.of_nat i + 1, n).
Proof.
  intros Hnd i f n v Hi Hf.
  apply (run_presses_nth init fs Hnd i f n v); [done|].
  unfold init, py_range. cbn [available_channels].
  rewrite lookup_seqZ. split; lia.
Qed.

End mpe_more.

Import MPE Props.

Lemma channels_partition_witness :
  exact_partition
    (run (init (K := Z * Z))
       [NoteOn (0, 8) 60 80; NoteOff (0, 8) None; NoteOn (0, 8) 62 80]).1.
Proof.
  eapply proj1, disciplined_calls_partition.
  repeat split; reflexivity.
Defined.

Lemma note_on_off_round_trip_witness :
  (note_off (note_on (init (K := Z * Z)) (0, 8) 60 80).1 (0, 8) None).2
    = [ [0x81; 60; 0]; [0xE1; 0; 64] ].
Proof.
  by rewrite (note_on_off_round_trip init (0, 8) 60 80 1 (seqZ 2 14)).
Defined.

Lemma fresh_allocation_in_order_witness :
  active_notes (run init (presses Examples.fifteen_fingers)).1 !! (0, 15)
    = Some (15, 75).
Proof.
  assert (NoDup Examples.fifteen_fingers.*1.*1) as Hnd.
  { apply (bool_decide_unpack _). vm_compute. exact I. }
  exact (fresh_allocation_in_order Examples.fifteen_fingers Hnd
           14 (0, 15) 75 80 ltac:(lia) eq_refl).
Defined.

(** * Further properties of the One-Euro filter *)

Module FilterMore.

Import Filter.
Local Open Scope Q_scope.




(** The first call on a filter without history, after [reset] or
    construction, returns its input unchanged and records it with the
    timestamp; the derivative estimate it stores is zero. *)
Theorem first_call_returns_input (f : OneEuroFilter) (x t : Q) :
  0 < freq f → 0 <= min_cutoff f → 0 <= d_cutoff f →
  ∃ f', call (reset f) x t = Ok (x, f') ∧
        _x_prev f' = Some x ∧ _t_prev f' = Some t ∧ _dx_prev f' == 0 ∧
        freq f' = freq f ∧ min_cutoff f' = min_cutoff f ∧
        beta f' = beta f ∧ d_cutoff f' = d_cutoff f.
Proof.
  intros Hfreq Hmin Hd. unfold call, call_locals, reset.
  cbn [_t_prev _x_prev _dx_prev freq d_cutoff min_cutoff beta].
  rewrite FilterFacts.py_div_nonzero by lra. cbn [mbind result_bind].
  assert (0 <= 1 / freq f) as Hte.
  { apply Qlt_le_weak, Qlt_shift_div_l; lra. }
  rewrite FilterFacts.alpha_ok by done. cbn [mbind result_bind].
  match goal with |- context [Qabs ?u] =>
    assert (u == 0) as Hu by ring end.
  rewrite FilterFacts.alpha_ok; [|done|].
  - cbn [mbind result_bind x_hat]. eexists. split; [reflexivity|].
    cbn. repeat split; try done.
  - rewrite Hu. change (Qabs 0) with 0. lra.
Qed.

Lemma first_call_returns_input_witness :
  ∃ f', call (reset Examples.fresh_filter) 0.5 1 = Ok (0.5, f').
Proof.
  destruct (first_call_returns_input Examples.fresh_filter 0.5 1)
    as (f' & Hc & _); [reflexivity|discriminate|discriminate|].
  by exists f'.
Defined.

Lemma call_inv (f : OneEuroFilter) (x t y : Q) f' :
  call f x t = Ok (y, f') →
  ∃ l, call_locals f x t = Ok (l, f') ∧ y = x_hat l.
Proof.
  unfold call. intros Hc.
  apply FilterFacts.bind_Ok_inv in Hc as ([l f1] & Hl & Hc).
  simplify_eq. by exists l.
Qed.






(** The call returns, without raising, whenever the frequency is
    positive, the cutoffs and the speed coefficient are not negative and
    the timestamp is later than the previous one. *)
Theorem call_returns_when_time_advances (f : OneEuroFilter) (x t : Q) :
  0 < freq f → 0 <= min_cutoff f → 0 <= beta f → 0 <= d_cutoff f →
  (∀ tp, _t_prev f = Some tp → tp < t) →
  ∃ y f', call f x t = Ok (y, f') ∧ _x_prev f' = Some y ∧ _t_prev f' = Some t.
Proof.
  intros Hfreq Hmin Hbeta Hd Ht.
  destruct (FilterFacts.call_returns f x t Hfreq Hmin Hbeta Hd Ht)
    as (y & f' & Hc).
  exists y, f'. split; [exact Hc|].
  apply call_inv in Hc as (l & Hc & ->).
  by apply FilterFacts.call_locals_inv in Hc as (? & ? & _).
Qed.

Lemma call_returns_when_time_advances_witness :
  ∃ y f', call (Examples.seen 0) 1 1 = Ok (y, f').
Proof.
  destruct (call_returns_when_time_advances
              (Examples.seen 0) 1 1)
    as (y & f' & Hc & _);
    [reflexivity|discriminate|discriminate|discriminate| |by exists y, f'].
  intros tp [= <-]. reflexivity.
Defined.

End FilterMore.

(** * Further properties of the mapper and of the translator *)

Module TranslatorMore.

Import MPE Filter Spatial Controller Props Invariants.

#[local] Set Warnings "-clear-no-such-hyp".

(** A calibrated projection lands in the unit square whatever the matrix
    and the point; without calibration, and after [reset], the point is
    returned unchanged. *)
Theorem project_point_range (s : SpatialEngine) (x y : Q) :
  (is_Some (homography_matrix s) →
     (0 <= (project_point s x y).1 <= 1)%Q ∧
     (0 <= (project_point s x y).2 <= 1)%Q) ∧
  (homography_matrix s = None → project_point s x y = (x, y)) ∧
  project_point (Spatial.reset s) x y = (x, y).
Proof.
  split; [|split; [|done]].
  - intros [m Hm]. unfold project_point. rewrite Hm.
    destruct (perspectiveTransform m x y) as [px py]. cbn [fst snd].
    assert (∀ p, 0 <= Qmax 0 (Qmin 1 p) <= 1)%Q as Hc.
    { intros p. split; [apply Q.le_max_l|].
      apply Q.max_lub; [discriminate|apply Q.le_min_l]. }
    split; apply Hc.
  - intros Hm. unfold project_point. by rewrite Hm.
Qed.

Lemma py_int_zero (q : Q) : (q == 0)%Q → py_int q = 0.
Proof.
  destruct q as [n d]. unfold Qeq, py_int. cbn. intros Hn.
  replace n with 0 by lia. apply Z.quot_0_l. lia.
Qed.

Lemma Qfloor_between (q : Q) (k : Z) :
  (inject_Z k <= q)%Q → (q < inject_Z (k + 1))%Q → Qfloor q = k.
Proof.
  intros Hlo Hhi.
  pose proof (Qfloor_le q) as H1. pose proof (Qlt_floor q) as H2.
  assert (inject_Z k < inject_Z (Qfloor q + 1))%Q as H3 by lra.
  assert (inject_Z (Qfloor q) < inject_Z (k + 1))%Q as H4 by lra.
  rewrite <- Zlt_Qlt in H3, H4. lia.
Qed.

Lemma clamped_abscissa_range (x : Q) :
  (0 <= Qmax 0 (Qmin 0.9999 x) <= 0.9999)%Q.
Proof.
  rewrite ControllerFacts.clamp_expression. apply ControllerFacts.clamp_bounds.
Qed.

(** Keys are laid out left to right: for a key range that is not
    reversed, the note does not decrease when the abscissa increases. *)
Theorem note_from_x_monotone (c : OpticalController) (x x' : Q) :
  0 ≤ num_notes c → (x <= x')%Q → _note_from_x c x ≤ _note_from_x c x'.
Proof.
  intros Hn Hx. unfold _note_from_x.
  assert (0 <= inject_Z (num_notes c))%Q as Hq by (rewrite <- (Zle_Qle 0); lia).
  pose proof (clamped_abscissa_range x) as [H0 _].
  pose proof (clamped_abscissa_range x') as [H0' _].
  rewrite !ControllerFacts.py_int_floor by (apply Qmult_le_0_compat; lra).
  apply Z.add_le_mono_l, Qfloor_resp_le, Qmult_le_compat_r; [|done].
  apply Q.max_le_compat_l, Q.min_le_compat_l, Hx.
Qed.

Lemma note_from_x_monotone_witness :
  _note_from_x Examples.fresh 0.25 ≤ _note_from_x Examples.fresh 0.75.
Proof.
  apply note_from_x_monotone; [discriminate|discriminate].
Defined.

(** The two ends of the keyboard: an abscissa at or left of 0 gives the
    first note; an abscissa at or right of 0.9999 gives the last note,
    [note_start + num_notes − 1], for a range of 1 to 10000 notes. *)
Theorem note_from_x_ends (c : OpticalController) (x : Q) :
  ((x <= 0)%Q → _note_from_x c x = note_start c) ∧
  ((0.9999 <= x)%Q → 0 < num_notes c ≤ 10000 →
     _note_from_x c x = note_start c + num_notes c - 1).
Proof.
  unfold _note_from_x. split.
  - intros Hx. rewrite py_int_zero; [lia|].
    rewrite Q.max_l; [ring|]. apply (Qle_trans _ x); [apply Q.le_min_r|done].
  - intros Hx Hn.
    assert (Qmax 0 (Qmin 0.9999 x) == 0.9999)%Q as Hc.
    { rewrite Q.min_l by done. by rewrite Q.max_r. }
    pose proof (clamped_abscissa_range x) as [H0 _].
    assert (0 < inject_Z (num_notes c))%Q as Hq
      by (rewrite <- (Zlt_Qlt 0); lia).
    assert (inject_Z (num_notes c) <= 10000)%Q as Hq'
      by (rewrite (Zle_Qle _ 10000) in Hn; tauto).
    rewrite ControllerFacts.py_int_floor by (apply Qmult_le_0_compat; lra).
    rewrite (Qfloor_between _ (num_notes c - 1)); [lia| |].
    + rewrite Hc. unfold Z.sub. rewrite inject_Z_plus.
      change (inject_Z (- (1))) with (- (1))%Q. lra.
    + rewrite Hc. replace (num_notes c - 1 + 1) with (num_notes c) by lia.
      lra.
Qed.

(** The velocity computed from a press depth is always a MIDI velocity
    in 1-127, and is 60 at the threshold itself. *)
Theorem velocity_from_z_delta_range (press_z_thresh z_delta : Q) :
  1 ≤ _velocity_from_z_delta press_z_thresh z_delta ≤ 127 ∧
  ((z_delta == press_z_thresh)%Q →
     _velocity_from_z_delta press_z_thresh z_delta = 60).
Proof.
  unfold _velocity_from_z_delta.
  set (v := ((z_delta - press_z_thresh) * 1200 + 60)%Q).
  assert (1 <= Qmin 127 (Qmax 1 v) <= 127)%Q as [Hlo Hhi].
  { split; [|apply Q.le_min_l].
    apply Q.min_glb; [discriminate|apply Q.le_max_l]. }
  rewrite ControllerFacts.py_int_floor by lra. split.
  - split.
    + change 1 with (Qfloor 1). by apply Qfloor_resp_le.
    + change 127 with (Qfloor 127). by apply Qfloor_resp_le.
  - intros Hz. assert (v == 60)%Q as Hv by (subst v; rewrite Hz; ring).
    apply Qfloor_between.
    + rewrite Hv, Q.max_r, Q.min_r by discriminate. discriminate.
    + rewrite Hv, Q.max_r, Q.min_r by discriminate. reflexivity.
Qed.

(** Hysteresis: a pressed fingertip that stays at or above the release
    threshold, and either below the entry threshold or on the same note,
    changes nothing and sends nothing; in particular a held key is never
    retriggered. *)
Theorem pressed_finger_holds
    (c : OpticalController) (k : finger) (fy px : Q) (old : Z) :
  active_fingers c !! k = Some old →
  (KEY_ZONE_RELEASE <= fy)%Q →
  (fy < KEY_ZONE_TOP)%Q ∨ _note_from_x c px = old →
  (tip_logic c k fy px).1.1 = c ∧ (tip_logic c k fy px).2 = [].
Proof.
  intros Hk Hrel Hcase. unfold tip_logic. rewrite Hk.
  destruct (Qle_bool KEY_ZONE_TOP fy) eqn:Etop.
  - apply Qle_bool_iff in Etop. destruct Hcase as [Hlt| ->]; [lra|].
    by rewrite bool_decide_eq_false_2 by (intros Hne; by apply Hne).
  - apply Qle_bool_iff in Hrel. by rewrite Hrel.
Qed.

Lemma pressed_finger_holds_witness :
  (tip_logic Examples.pressed (0, 8) 0.74 0.9).1.1 = Examples.pressed ∧
  (tip_logic Examples.pressed (0, 8) 0.74 0.9).2 = [].
Proof.
  apply (pressed_finger_holds Examples.pressed (0, 8) 0.74 0.9 62);
    [reflexivity|discriminate|left; reflexivity].
Defined.



(** The decision of one fingertip reads and writes the state of that
    finger only. *)
Lemma tip_logic_other (c : OpticalController) (k k' : finger) (fy px : Q) :
  k' ≠ k →
  active_fingers (tip_logic c k fy px).1.1 !! k' = active_fingers c !! k' ∧
  active_notes (mpe (tip_logic c k fy px).1.1) !! k'
    = active_notes (mpe c) !! k'.
Proof.
  intros Hne. unfold tip_logic.
  destruct (Qle_bool KEY_ZONE_TOP fy).
  - destruct (active_fingers c !! k) as [old|].
    + case_bool_decide; [|done]. unfold note_off.
      destruct (active_notes (mpe c) !! k) as [[ch st]|]; unfold note_on;
        cbn [available_channels active_notes].
      * destruct (available_channels (mpe c) ++ [ch]) as [|a rest]; cbn;
          rewrite ?lookup_insert_ne, ?lookup_delete_ne by done; done.
      * destruct (available_channels (mpe c)) as [|a rest]; cbn;
          rewrite ?lookup_insert_ne by done; done.
    + unfold note_on. destruct (available_channels (mpe c)) as [|a rest]; cbn;
        rewrite ?lookup_insert_ne by done; done.
  - destruct (active_fingers c !! k) as [old|]; [|done].
    destruct (Qle_bool KEY_ZONE_RELEASE fy); cbn [negb]; [done|].
    unfold note_off. destruct (active_notes (mpe c) !! k) as [[ch st]|]; cbn;
      rewrite ?lookup_delete_ne by done; done.
Qed.

(** The decision of one fingertip keeps the invariant of the translator:
    it never asks the engine for a channel for a finger that holds one. *)
Lemma tip_logic_inv (c : OpticalController) (k : finger) (fy px : Q) :
  translator_inv c → translator_inv (tip_logic c k fy px).1.1.
Proof.
  intros [Hdom Hpart]. unfold translator_inv, tip_logic.
  assert (∀ e : MPEEngine finger, ∀ n,
            active_notes e !! k = None → exact_partition e →
            exact_partition (note_on e k n 80).1 ∧
            dom (active_notes (note_on e k n 80).1)
              ⊆ {[k]} ∪ dom (active_notes e)) as Hon.
  { intros e n Hk He. split.
    - by apply (exact_partition_step e (NoteOn k n 80)).
    - unfold note_on. destruct (available_channels e); cbn [fst active_notes].
      + set_solver.
      + rewrite dom_insert. set_solver. }
  assert (∀ e : MPEEngine finger, ∀ n,
            exact_partition e →
            exact_partition (note_off e k n).1 ∧
            active_notes (note_off e k n).1 = delete k (active_notes e)) as Hoff.
  { intros e n He. split.
    - by apply (exact_partition_step e (NoteOff k n)).
    - unfold note_off. destruct (active_notes e !! k) as [[ch st]|] eqn:E;
        cbn [fst active_notes]; [done|]. by rewrite delete_id. }
  destruct (Qle_bool KEY_ZONE_TOP fy).
  - destruct (active_fingers c !! k) as [old|] eqn:Ek.
    + case_bool_decide; [|done].
      destruct (Hoff (mpe c) (Some old) Hpart) as [Hp1 Ha1].
      destruct (note_off (mpe c) k (Some old)) as [e1 out1].
      cbn [fst] in Hp1, Ha1.
      destruct (Hon e1 (_note_from_x c px)) as [Hp2 Hd2]; [|done|].
      { rewrite Ha1. apply lookup_delete_eq. }
      destruct (note_on e1 k (_note_from_x c px) 80) as [e2 out2].
      cbn [fst with_mpe mpe active_fingers] in *. split; [|done].
      rewrite dom_insert. rewrite Ha1, dom_delete in Hd2. set_solver.
    + assert (active_notes (mpe c) !! k = None) as Hk.
      { apply not_elem_of_dom. intros Hin. apply Hdom in Hin.
        by apply not_elem_of_dom in Ek. }
      destruct (Hon (mpe c) (_note_from_x c px) Hk Hpart) as [Hp2 Hd2].
      destruct (note_on (mpe c) k (_note_from_x c px) 80) as [e2 out2].
      cbn [fst with_mpe mpe active_fingers] in *. split; [|done].
      rewrite dom_insert. set_solver.
  - destruct (active_fingers c !! k) as [old|] eqn:Ek; [|done].
    destruct (Qle_bool KEY_ZONE_RELEASE fy); cbn [negb]; [done|].
    destruct (Hoff (mpe c) (Some old) Hpart) as [Hp1 Ha1].
    destruct (note_off (mpe c) k (Some old)) as [e1 out1].
    cbn [fst with_mpe mpe active_fingers] in *. split; [|done].
    rewrite Ha1, !dom_delete. set_solver.
Qed.

Lemma process_tip_inv c landmarks hand_idx t tip_id c' notes out :
  process_tip c landmarks hand_idx t tip_id = Ok (c', notes, out) →
  ∃ c1 fy px,
    c' = (tip_logic c1 (hand_idx, tip_id) fy px).1.1 ∧
    mpe c1 = mpe c ∧ active_fingers c1 = active_fingers c ∧
    ∀ k, k ≠ (hand_idx, tip_id) →
         filters_x c1 !! k = filters_x c !! k ∧
         filters_y c1 !! k = filters_y c !! k.
Proof.
  unfold process_tip. intros Hp.
  apply FilterFacts.bind_Ok_inv in Hp as ([s c1] & Hf & Hp).
  apply ControllerFacts.tip_filter_inv in Hf
    as (tip & filt_x & filt_y & filt_x' & filt_y' & _ & _ & _ & _ & _ & _ & ->).
  injection Hp as Hp. eexists _, (fy s), (px s). split; [by rewrite Hp|].
  cbn. repeat split; by rewrite lookup_insert_ne.
Qed.

Lemma tip_logic_filters (c : OpticalController) (k : finger) (fy px : Q) :
  filters_x (tip_logic c k fy px).1.1 = filters_x c ∧
  filters_y (tip_logic c k fy px).1.1 = filters_y c.
Proof.
  unfold tip_logic.
  destruct (Qle_bool KEY_ZONE_TOP fy), (active_fingers c !! k);
    repeat case_bool_decide;
    repeat match goal with
           | |- context [note_off ?e ?f ?n] => destruct (note_off e f n)
           | |- context [note_on ?e ?f ?n ?v] => destruct (note_on e f n v)
           | |- context [negb ?b] => destruct b; cbn [negb]
           end; done.
Qed.

(** What a run over the fingertips of a hand keeps and leaves alone. *)
Lemma process_tips_inv tips : ∀ c landmarks hand_idx t active c' active' out,
  process_tips c landmarks hand_idx t tips active = Ok (c', active', out) →
  (translator_inv c → translator_inv c') ∧
  ∀ k, k.1 ≠ hand_idx →
       active_fingers c' !! k = active_fingers c !! k ∧
       active_notes (mpe c') !! k = active_notes (mpe c) !! k ∧
       filters_x c' !! k = filters_x c !! k ∧
       filters_y c' !! k = filters_y c !! k.
Proof.
  induction tips as [|tip_id tips IH];
    intros c landmarks hand_idx t active c' active' out Hp.
  - cbn in Hp. by simplify_eq.
  - cbn [process_tips] in Hp.
    apply FilterFacts.bind_Ok_inv in Hp as ([[c1 notes] out1] & Ht & Hp).
    apply FilterFacts.bind_Ok_inv in Hp as ([[c2 active2] out2] & Hr & Hp).
    simplify_eq.
    apply process_tip_inv in Ht as (c0 & fy & px & -> & Hm & Ha & Hfilt).
    apply IH in Hr as [Hinv Hother]. split.
    + intros Hc. apply Hinv, tip_logic_inv.
      unfold translator_inv in *. by rewrite Hm, Ha.
    + intros k Hk.
      assert (k ≠ (hand_idx, tip_id)) as Hne by (intros ->; by apply Hk).
      destruct (Hother k Hk) as (-> & -> & -> & ->).
      destruct (tip_logic_other c0 (hand_idx, tip_id) k fy px Hne) as [-> ->].
      destruct (tip_logic_filters c0 (hand_idx, tip_id) fy px) as [-> ->].
      destruct (Hfilt k Hne) as [-> ->]. by rewrite Hm, Ha.
Qed.

Lemma new_translator_inv (note_start note_end : Z) (beta freq : Q) :
  translator_inv (Controller.new note_start note_end beta freq).
Proof.
  split; [done|]. apply exact_partition_init.
Qed.

(** Processing a hand touches that hand only: the pressed notes, the
    channels and the filters of the fingers of every other hand slot are
    as before. *)
Theorem process_hand_leaves_other_hands
    (c : OpticalController) (landmarks : list Landmark) (hand_idx : Z) (t : Q)
    (c' : OpticalController) (active : gset Z) (out : list message) :
  _process_hand c landmarks hand_idx t = Ok (c', active, out) →
  ∀ k : finger, k.1 ≠ hand_idx →
    active_fingers c' !! k = active_fingers c !! k ∧
    active_notes (mpe c') !! k = active_notes (mpe c) !! k ∧
    filters_x c' !! k = filters_x c !! k ∧
    filters_y c' !! k = filters_y c !! k.
Proof.
  unfold _process_hand. intros Hp. by apply process_tips_inv in Hp as [_ Ho].
Qed.

(** The translator never leaks a channel: over the hands of a frame, every
    finger with a channel in the engine stays a finger the translator holds
    as pressed, and the pool and the channels in use stay an exact
    partition of the 15 note-channels. *)
Theorem process_hands_keep_invariant
    (hands : list (list Landmark)) (c : OpticalController) (hi : Z) (t : Q)
    (all_active : gset Z) (c' : OpticalController) (all_active' : gset Z)
    (out : list message) :
  translator_inv c →
  process_hands c hands hi t all_active = Ok (c', all_active', out) →
  translator_inv c' ∧ partitions (mpe c').
Proof.
  intros Hc Hp.
  assert (translator_inv c') as Hc'.
  { revert c hi all_active c' all_active' out Hc Hp.
    induction hands as [|landmarks hands IH];
      intros c hi all_active c' all_active' out Hc Hp.
    - cbn in Hp. by simplify_eq.
    - cbn [process_hands] in Hp.
      apply FilterFacts.bind_Ok_inv in Hp as ([[c1 active] out1] & Hh & Hp).
      apply FilterFacts.bind_Ok_inv in Hp as ([[c2 all2] out2] & Hr & Hp).
      simplify_eq. eapply IH; [|exact Hr].
      unfold _process_hand in Hh. apply process_tips_inv in Hh as [Hinv _].
      by apply Hinv. }
  split; [exact Hc'|]. apply exact_partition_partitions, Hc'.
Qed.

Lemma process_hand_leaves_other_hands_witness :
  ∃ c' active out,
    _process_hand Examples.fresh (Examples.hand 0.1 0.8) 0 0
      = Ok (c', active, out) ∧
    active_fingers c' !! (1, 8) = active_fingers Examples.fresh !! (1, 8).
Proof.
  assert (∃ r, _process_hand Examples.fresh (Examples.hand 0.1 0.8) 0 0 = Ok r)
    as [[[c' active] out] Hp] by (eexists; vm_compute; reflexivity).
  exists c', active, out. split; [exact Hp|].
  by apply (process_hand_leaves_other_hands _ _ _ _ _ _ _ Hp (1, 8)).
Defined.

Lemma process_hands_keep_invariant_witness :
  ∃ c' active out,
    process_hands Examples.fresh [Examples.hand 0.1 0.8] 0 0 ∅
      = Ok (c', active, out) ∧
    partitions (mpe c').
Proof.
  assert (∃ r, process_hands Examples.fresh [Examples.hand 0.1 0.8] 0 0 ∅
               = Ok r)
    as [[[c' active] out] Hp] by (eexists; vm_compute; reflexivity).
  exists c', active, out. split; [exact Hp|].
  exact (proj2 (process_hands_keep_invariant _ _ _ _ _ _ _ _
                  (new_translator_inv 60 84 0 30) Hp)).
Defined.

(** Releasing a list of distinct pressed fingers. *)
Lemma release_stale_list (stale : list finger) : ∀ c : OpticalController,
  NoDup stale →
  (∀ fk, fk ∈ stale → is_Some (active_fingers c !! fk)) →
  ∃ c' out,
    release_stale c stale = Ok (c', out) ∧
    (∀ fk, active_fingers c' !! fk
           = if decide (fk ∈ stale) then None else active_fingers c !! fk) ∧
    (∀ fk, active_notes (mpe c') !! fk
           = if decide (fk ∈ stale) then None
             else active_notes (mpe c) !! fk) ∧
    (translator_inv c → translator_inv c').
Proof.
  induction stale as [|k stale IH]; intros c Hnd Hall.
  - exists c, []. split; [done|].
    split; [|split; [|done]];
      intros fk; by rewrite decide_False by apply not_elem_of_nil.
  - apply NoDup_cons in Hnd as [Hk Hnd].
    destruct (Hall k) as [old Hold]; [by left|].
    cbn [release_stale]. rewrite Hold. cbn [mbind result_bind].
    destruct (note_off (mpe c) k (Some old)) as [e1 out1] eqn:Eoff.
    assert (active_notes e1 = delete k (active_notes (mpe c))) as Ha1.
    { unfold note_off in Eoff.
      destruct (active_notes (mpe c) !! k) as [[ch st]|] eqn:E;
        simplify_eq; [done|]. by rewrite delete_id. }
    destruct (IH (with_mpe c e1 (delete k (active_fingers c))) Hnd)
      as (c' & out & Hr & Hf & Hn & Hinv).
    { intros fk Hfk. cbn [with_mpe active_fingers].
      rewrite lookup_delete_ne by (intros ->; done). apply Hall. by right. }
    rewrite Hr. cbn [mbind result_bind]. exists c', (out1 ++ out).
    split; [done|]. cbn [with_mpe active_fingers mpe] in Hf, Hn.
    split; [|split].
    + intros fk. rewrite Hf. destruct (decide (fk = k)) as [->|Hne].
      * rewrite lookup_delete_eq.
        rewrite (decide_True (P := k ∈ k :: stale)) by by left.
        by case_decide.
      * rewrite lookup_delete_ne by done.
        repeat case_decide; try done; set_solver.
    + intros fk. rewrite Hn, Ha1. destruct (decide (fk = k)) as [->|Hne].
      * rewrite lookup_delete_eq.
        rewrite (decide_True (P := k ∈ k :: stale)) by by left.
        by case_decide.
      * rewrite lookup_delete_ne by done.
        repeat case_decide; try done; set_solver.
    + intros [Hdom Hpart]. apply Hinv. split.
      * cbn [with_mpe active_fingers mpe]. rewrite Ha1, !dom_delete.
        set_solver.
      * cbn [with_mpe mpe].
        pose proof (exact_partition_step (mpe c) (NoteOff k (Some old)) I Hpart)
          as Hs.
        cbn [step] in Hs. by rewrite Eoff in Hs.
Qed.

(** Forced release: when the pressed fingers of the hand slots that are
    no longer detected are released, the loop does not raise; afterwards
    no finger of those slots is pressed or holds a channel, the fingers of
    the detected hands keep their notes and channels, and the pool is
    still an exact partition of the note-channels. *)
Theorem stale_hands_are_released
    (c : OpticalController) (num_hands : Z) (stale : list finger) :
  stale_fingers c num_hands stale →
  translator_inv c →
  ∃ c' out,
    release_stale c stale = Ok (c', out) ∧
    (∀ fk : finger, num_hands ≤ fk.1 →
       active_fingers c' !! fk = None ∧
       active_notes (mpe c') !! fk = None) ∧
    (∀ fk : finger, fk.1 < num_hands →
       active_fingers c' !! fk = active_fingers c !! fk ∧
       active_notes (mpe c') !! fk = active_notes (mpe c) !! fk) ∧
    translator_inv c'.
Proof.
  intros [Hnd Hst] Hinv.
  destruct (release_stale_list stale c Hnd) as (c' & out & Hr & Hf & Hn & Hi).
  { intros fk Hfk. by apply Hst in Hfk as [? _]. }
  exists c', out. split; [exact Hr|]. specialize (Hi Hinv).
  split; [|split; [|exact Hi]].
  - intros fk Hfk.
    assert (active_fingers c' !! fk = None) as Hnone.
    { rewrite Hf. case_decide as Hin; [done|].
      destruct (active_fingers c !! fk) as [n|] eqn:E; [|done].
      exfalso. apply Hin, Hst. by split; [eexists|]. }
    split; [exact Hnone|].
    apply not_elem_of_dom. intros Hin. apply Hi in Hin.
    by apply not_elem_of_dom in Hnone.
  - intros fk Hfk. rewrite Hf, Hn.
    assert (fk ∉ stale) as Hout.
    { intros Hin. apply Hst in Hin as [_ ?]. lia. }
    by repeat case_decide.
Qed.

Lemma pressed_translator_inv : translator_inv Examples.pressed.
Proof.
  change Examples.pressed
    with (tip_logic Examples.fresh (0, 8) 0.8 0.1).1.1.
  apply tip_logic_inv, new_translator_inv.
Qed.

Lemma stale_hands_are_released_witness :
  ∃ c' out,
    release_stale Examples.pressed [(0, 8)] = Ok (c', out) ∧
    active_fingers c' !! (0, 8) = None.
Proof.
  destruct (stale_hands_are_released Examples.pressed 0 [(0, 8)])
    as (c' & out & Hr & Hgone & _).
  - split; [apply NoDup_singleton|]. intros fk.
    rewrite list_elem_of_singleton.
    change (active_fingers Examples.pressed) with (<[(0, 8) := 62]> (∅ : gmap finger Z)).
    rewrite lookup_insert_is_Some, lookup_empty. split.
    + intros ->. split; [by left|done].
    + intros [[Heq|[_ [x Hx]]] _]; [by subst|discriminate Hx].
  - apply pressed_translator_inv.
  - exists c', out. split; [exact Hr|]. by apply Hgone.
Defined.

(** The calibration dialogue: after the key [C], the first three clicks
    only collect points; with non-zero frame dimensions the fourth click
    calibrates on the four points in click order and ends the dialogue,
    and later clicks change nothing.  A click outside the dialogue changes
    nothing either. *)
Theorem four_clicks_calibrate
    (findHomography : list (Q * Q) → list (Q * Q) → option matrix)
    (u : CalibrationUI) (p1 p2 p3 p4 : Z * Z) :
  frame_w u ≠ 0 → frame_h u ≠ 0 →
  let u3 := clicks findHomography (start_calibration u) [p1; p2; p3] in
  let u4 := clicks findHomography (start_calibration u) [p1; p2; p3; p4] in
  ui_spatial u3 = ui_spatial u ∧ calibrating u3 = true ∧
  calibrating u4 = false ∧
  (∃ src_norm,
     normalise [p1; p2; p3; p4] (frame_w u) (frame_h u) = Ok src_norm ∧
     homography_matrix (ui_spatial u4) = findHomography src_norm dst_norm) ∧
  (∀ x y, _on_mouse findHomography u4 true x y = (u4, Ok ())) ∧
  (calibrating u = false →
     ∀ x y, _on_mouse findHomography u true x y = (u, Ok ())).
Proof.
  intros Hw Hh u3 u4.
  destruct p1 as [x1 y1], p2 as [x2 y2], p3 as [x3 y3], p4 as [x4 y4].
  destruct (SpatialFacts.normalise_returns
              [(x1, y1); (x2, y2); (x3, y3); (x4, y4)] (frame_w u) (frame_h u)
              Hw Hh) as [ps Hps].
  assert (u3 = {| calibrating := true;
                  calibration_points := [(x1, y1); (x2, y2); (x3, y3)];
                  ui_spatial := ui_spatial u;
                  frame_w := frame_w u; frame_h := frame_h u |}) as E3
    by reflexivity.
  assert (u4 = {| calibrating := false;
                  calibration_points := [(x1, y1); (x2, y2); (x3, y3); (x4, y4)];
                  ui_spatial := {| homography_matrix := findHomography ps dst_norm |};
                  frame_w := frame_w u; frame_h := frame_h u |}) as E4.
  { subst u4. change (clicks findHomography (start_calibration u)
                        [(x1, y1); (x2, y2); (x3, y3); (x4, y4)])
      with (_on_mouse findHomography u3 true x4 y4).1.
    rewrite E3. unfold _on_mouse, calibrate.
    cbn [andb calibrating calibration_points app length bool_decide
         ui_spatial frame_w frame_h].
    rewrite bool_decide_eq_true_2 by done.
    rewrite bool_decide_eq_false_2 by (intros Hne; by apply Hne).
    by rewrite Hps. }
  rewrite E3, E4. cbn [ui_spatial calibrating homography_matrix].
  repeat split; try done.
  - by exists ps.
  - intros Hc x y. unfold _on_mouse. by rewrite Hc.
Qed.

Lemma four_clicks_calibrate_witness :
  homography_matrix
    (ui_spatial
       (clicks Examples.solve_lower_half
          (start_calibration (mkUI false [] Spatial.init 640 480))
          Examples.lower_half_clicks))
    = Some Examples.lower_half.
Proof.
  destruct (four_clicks_calibrate Examples.solve_lower_half
              (mkUI false [] Spatial.init 640 480)
              (0, 240) (640, 240) (640, 480) (0, 480))
    as (_ & _ & _ & (ps & Hps & Hm) & _); [done|done|].
  unfold Examples.lower_half_clicks. rewrite Hm.
  vm_compute in Hps. injection Hps as <-. reflexivity.
Defined.

End TranslatorMore.
